(** * ImageUpload: a shallow embedding of packages/ui/src/ImageUpload/index.js

    The component validates a selected file (extension allow-list, maximum
    size), optionally reads it into a data URL and hands it to an upload
    callback, and keeps four fields of view state.  The embedding follows
    the source function by function; the JavaScript platform (strings,
    [RegExp], promises, [FileReader], [setTimeout], React's [setState]) is
    modelled explicitly where the component relies on it. *)

From Stdlib Require Import Ascii String.
From Stdlib Require Import List Bool Arith ZArith NArith Lia.
Import ListNotations.


(** ** JavaScript strings

    A string is a sequence of code units.  The model covers code units
    0..255 (the Latin-1 range of UTF-16), which is what [ascii] holds. *)

Module JS.

Abbreviation jsstring := (list ascii).

Definition js (s : string) : jsstring := list_ascii_of_string s.

Definition code (c : ascii) : N := N_of_ascii c.

(** [String.prototype.toLowerCase] on one Latin-1 code unit: A-Z and the
    accented capitals U+00C0..U+00DE (the multiplication sign U+00D7 apart)
    move up by 32, everything else is left alone. *)
Definition lower_char (c : ascii) : ascii :=
  let n := code c in
  if ((65 <=? n) && (n <=? 90))%N
     || ((192 <=? n) && (n <=? 222) && negb (n =? 215))%N
  then ascii_of_N (n + 32)
  else c.

Definition toLowerCase (s : jsstring) : jsstring := map lower_char s.

Definition char_eqb (a b : ascii) : bool := Ascii.eqb a b.

Fixpoint str_eqb (a b : jsstring) : bool :=
  match a, b with
  | [], [] => true
  | x :: a', y :: b' => char_eqb x y && str_eqb a' b'
  | _, _ => false
  end.

(** [s.startsWith(p)] *)
Fixpoint starts_with (p s : jsstring) : bool :=
  match p, s with
  | [], _ => true
  | x :: p', y :: s' => char_eqb x y && starts_with p' s'
  | _ :: _, [] => false
  end.

(** [Array.prototype.join] on an array of strings. *)
Fixpoint join (sep : jsstring) (l : list jsstring) : jsstring :=
  match l with
  | [] => []
  | [x] => x
  | x :: rest => x ++ sep ++ join sep rest
  end.

(** [s.replace(/\./g, '\\.')]: every dot becomes backslash-dot.  The
    replacement text holds no dollar sign, so it is copied as it is. *)
Fixpoint escape_dots (s : jsstring) : jsstring :=
  match s with
  | [] => []
  | c :: s' =>
      if char_eqb c "."%char then "\"%char :: "."%char :: escape_dots s'
      else c :: escape_dots s'
  end.

(** *** [String.prototype.replace] with a string pattern and a string
    replacement

    Only the first occurrence is replaced, and the replacement text is a
    template: [$$] stands for a dollar sign, [$&] for the matched text,
    [$`] for the text before the match and [$'] for the text after it.  A
    string pattern has no capture groups, so [$1], [$<name>] and every other
    use of the dollar sign are copied as they are. *)
Fixpoint getSubstitution (matched before after template : jsstring) : jsstring :=
  match template with
  | [] => []
  | c :: t =>
      if char_eqb c "$"%char then
        match t with
        | d :: t' =>
            if char_eqb d "$"%char then "$"%char :: getSubstitution matched before after t'
            else if char_eqb d "&"%char then matched ++ getSubstitution matched before after t'
            else if char_eqb d "`"%char then before ++ getSubstitution matched before after t'
            else if char_eqb d "'"%char then after ++ getSubstitution matched before after t'
            else c :: getSubstitution matched before after t
        | [] => [c]
        end
      else c :: getSubstitution matched before after t
  end.

(** [find_first pat s] splits [s] at the first occurrence of [pat]: the text
    before it and the text after it. *)
Fixpoint find_first (pat s : jsstring) : option (jsstring * jsstring) :=
  if starts_with pat s then Some ([], skipn (length pat) s)
  else
    match s with
    | [] => None
    | c :: s' =>
        match find_first pat s' with
        | Some (before, after) => Some (c :: before, after)
        | None => None
        end
    end.

Definition replace (pat template s : jsstring) : jsstring :=
  match find_first pat s with
  | None => s
  | Some (before, after) =>
      before ++ getSubstitution pat before after template ++ after
  end.

End JS.

(** ** Regular expressions

    [new RegExp(pattern, 'i').test(s)] for a fragment of the pattern syntax:
    literal characters, a backslash before a syntax character, the dot,
    [^] and [$], alternation, capturing groups and the greedy quantifiers
    [*], [+] and [?].  Character classes, braces, lazy quantifiers, [(?...)]
    groups and the other backslash escapes are outside the fragment. *)

Module RegExp.
Import JS.

Inductive regex : Type :=
| REmpty                       (* the empty alternative *)
| RChar (c : ascii)            (* a pattern character *)
| RAny                         (* . *)
| RStart                       (* ^ *)
| REnd                         (* $ *)
| RSeq (r1 r2 : regex)
| RAlt (r1 r2 : regex)         (* r1|r2 *)
| RGroup (r : regex)           (* (r) *)
| RStar (r : regex)            (* r* *)
| RPlus (r : regex)            (* r+ *)
| ROpt (r : regex).            (* r? *)

(** *** The parser *)

Inductive token : Type :=
| TOpen | TClose | TBar | TStar | TPlus | TQuest
| TBackslash | TDot | TCaret | TDollar
| TOther               (* [ ] { }: part of syntax that is not modelled *)
| TLit.

Definition classify (c : ascii) : token :=
  if char_eqb c "("%char then TOpen
  else if char_eqb c ")"%char then TClose
  else if char_eqb c "|"%char then TBar
  else if char_eqb c "*"%char then TStar
  else if char_eqb c "+"%char then TPlus
  else if char_eqb c "?"%char then TQuest
  else if char_eqb c "\"%char then TBackslash
  else if char_eqb c "."%char then TDot
  else if char_eqb c "^"%char then TCaret
  else if char_eqb c "$"%char then TDollar
  else if char_eqb c "["%char || char_eqb c "]"%char
          || char_eqb c "{"%char || char_eqb c "}"%char then TOther
  else TLit.

(** A backslash may stand before a syntax character or a slash; the
    escaped character is then taken literally. *)
Definition escapable (c : ascii) : bool :=
  match classify c with
  | TLit => char_eqb c "/"%char
  | _ => true
  end.

(** Only an atom can take a quantifier: [a**], [$*] and a quantifier at the
    start of an alternative are syntax errors. *)
Definition quantifiable (r : regex) : bool :=
  match r with
  | RChar _ | RAny | RGroup _ => true
  | _ => false
  end.

(** The terms of an alternative, first to last. *)
Definition seq_of (terms : list regex) : regex := fold_right RSeq REmpty terms.

(** A disjunction: the finished alternatives (last first) and the terms of
    the one being read (last first). *)
Definition close (alts cur : list regex) : regex :=
  fold_left (fun acc a => RAlt a acc) alts (seq_of (rev cur)).

(** One pass over the pattern.  [stack] holds, for every group that is
    still open, the disjunction that was being read when it opened. *)
Fixpoint parse_loop (p : jsstring) (stack : list (list regex * list regex))
    (alts cur : list regex) : option regex :=
  match p with
  | [] =>
      match stack with
      | [] => Some (close alts cur)
      | _ :: _ => None                              (* unterminated group *)
      end
  | c :: p' =>
      match classify c with
      | TOpen =>
          match p' with
          | "?"%char :: _ => None                   (* (?: (?= (?! (?< *)
          | _ => parse_loop p' ((alts, cur) :: stack) [] []
          end
      | TClose =>
          match stack with
          | [] => None                              (* unmatched ) *)
          | (alts', cur') :: stack' =>
              parse_loop p' stack' alts' (RGroup (close alts cur) :: cur')
          end
      | TBar => parse_loop p' stack (seq_of (rev cur) :: alts) []
      | TStar =>
          match cur with
          | t :: cur' =>
              if quantifiable t then parse_loop p' stack alts (RStar t :: cur')
              else None
          | [] => None                              (* nothing to repeat *)
          end
      | TPlus =>
          match cur with
          | t :: cur' =>
              if quantifiable t then parse_loop p' stack alts (RPlus t :: cur')
              else None
          | [] => None
          end
      | TQuest =>
          match cur with
          | t :: cur' =>
              if quantifiable t then parse_loop p' stack alts (ROpt t :: cur')
              else None
          | [] => None
          end
      | TBackslash =>
          match p' with
          | d :: p'' =>
              if escapable d then parse_loop p'' stack alts (RChar d :: cur)
              else None
          | [] => None                              (* \ at end of pattern *)
          end
      | TDot => parse_loop p' stack alts (RAny :: cur)
      | TCaret => parse_loop p' stack alts (RStart :: cur)
      | TDollar => parse_loop p' stack alts (REnd :: cur)
      | TOther => None
      | TLit => parse_loop p' stack alts (RChar c :: cur)
      end
  end.

(** [None]: the constructor throws a SyntaxError, or the pattern is outside
    the modelled fragment. *)
Definition parse (pattern : jsstring) : option regex :=
  parse_loop pattern [] [] [].

(** *** The matcher

    With the [i] flag two characters match when their canonical forms are
    equal.  The canonical form is the upper-case one, when that is a single
    code unit: a-z and U+00E0..U+00FE (the division sign U+00F7 apart) move
    down by 32, the micro sign goes to U+039C, y-diaeresis to U+0178, and
    sharp s stays (its upper case is two letters). *)
Definition canonicalize (c : ascii) : N :=
  let n := code c in
  if ((97 <=? n) && (n <=? 122))%N
     || ((224 <=? n) && (n <=? 254) && negb (n =? 247))%N
  then (n - 32)%N
  else if (n =? 181)%N then 924%N
  else if (n =? 255)%N then 376%N
  else n.

(** The dot matches everything but a line terminator. *)
Definition line_terminator (c : ascii) : bool :=
  ((code c =? 10) || (code c =? 13))%N.

(** A match state: the end index of the match so far and the input that
    is left from there. *)
Record mstate : Type := MState { endIndex : nat; rest : jsstring }.

(** Zero or more greedy iterations of [m]; an iteration that consumes
    nothing is abandoned.  Every iteration shortens [rest], so [fuel] is
    the length of what is left. *)
Fixpoint repeat_matcher (m : mstate -> list mstate) (fuel : nat) (x : mstate)
    : list mstate :=
  match fuel with
  | O => [x]
  | S fuel' =>
      flat_map (fun y => if endIndex y =? endIndex x then []
                         else repeat_matcher m fuel' y) (m x) ++ [x]
  end.

(** [matcher r x]: the states in which a match of [r] from [x] can end, in
    the order in which a backtracking matcher would try them. *)
Fixpoint matcher (r : regex) (x : mstate) : list mstate :=
  match r with
  | REmpty => [x]
  | RChar c =>
      match rest x with
      | ch :: t =>
          if (canonicalize ch =? canonicalize c)%N
          then [MState (S (endIndex x)) t] else []
      | [] => []
      end
  | RAny =>
      match rest x with
      | ch :: t =>
          if line_terminator ch then [] else [MState (S (endIndex x)) t]
      | [] => []
      end
  | RStart => if endIndex x =? 0 then [x] else []
  | REnd => match rest x with [] => [x] | _ :: _ => [] end
  | RSeq r1 r2 => flat_map (matcher r2) (matcher r1 x)
  | RAlt r1 r2 => matcher r1 x ++ matcher r2 x
  | RGroup r' => matcher r' x
  | RStar r' => repeat_matcher (matcher r') (length (rest x)) x
  | RPlus r' =>
      flat_map (fun y => repeat_matcher (matcher r') (length (rest y)) y)
               (matcher r' x)
  | ROpt r' =>
      filter (fun y => negb (endIndex y =? endIndex x)) (matcher r' x) ++ [x]
  end.

Definition matches_at (r : regex) (x : mstate) : bool :=
  match matcher r x with
  | [] => false
  | _ :: _ => true
  end.

(** The search of [exec] without the [g] and [y] flags: try index 0, then
    1, and so on up to the length of the input. *)
Fixpoint search (r : regex) (i : nat) (s : jsstring) : bool :=
  matches_at r (MState i s)
  || match s with
     | [] => false
     | _ :: s' => search r (S i) s'
     end.

(** [new RegExp(pattern, 'i').test(s)] *)
Definition test_i (pattern s : jsstring) : option bool :=
  match parse pattern with
  | Some r => Some (search r 0 s)
  | None => None
  end.

End RegExp.

(** ** The component *)

Module ImageUpload.
Import JS.

Definition NO_FILE_ERROR_CODE : Z := 1.
Definition BAD_EXTENSION_ERROR_CODE : Z := 2.
Definition TOO_BIG_ERROR_CODE : Z := 3.
Definition UPLOADING_ERROR_CODE : Z := 4.

(** Values that the component only passes along: what an upload promise
    resolves or rejects with. *)
Inductive jsval : Type :=
| VUndefined
| VNumber (n : Z)
| VString (s : jsstring).

(** A [File] of the platform: its name and its size in bytes.  Numbers
    (sizes, [maxFileSize], progress values, error codes) are integers. *)
Record File : Type := mkFile { name : jsstring; size : Z }.

(** The props.  A callback is opaque: the model records whether it is
    supplied, and logs its invocations. *)
Record Props : Type := mkProps {
  imageLoaded : bool;
  imageUpload : bool;
  imageUploadError : bool;
  imageUploaded : bool;
  maxFileSize : Z;
  allowedExtensions : list jsstring
}.

Definition defaultProps : Props :=
  {| imageLoaded := false; imageUpload := false;
     imageUploadError := false; imageUploaded := false;
     maxFileSize := 5242880;
     allowedExtensions := [js "jpg"; js "jpeg"; js "png"] |}.

Record ImageUploadState : Type := mkState {
  isUploading : bool;
  hasError : bool;
  errorText : jsstring;
  progress : option Z
}.

(** The constructor's state. *)
Definition initialState : ImageUploadState :=
  {| isUploading := false; hasError := false; errorText := []; progress := None |}.

(** The argument of [setState]: the fields to overwrite.  [progress] can be
    set to [undefined], hence the nested option. *)
Record Patch : Type := mkPatch {
  set_isUploading : option bool;
  set_hasError : option bool;
  set_errorText : option jsstring;
  set_progress : option (option Z)
}.

Definition or_keep {A : Type} (new : option A) (old : A) : A :=
  match new with Some v => v | None => old end.

Definition merge (p : Patch) (s : ImageUploadState) : ImageUploadState :=
  {| isUploading := or_keep (set_isUploading p) (isUploading s);
     hasError := or_keep (set_hasError p) (hasError s);
     errorText := or_keep (set_errorText p) (errorText s);
     progress := or_keep (set_progress p) (progress s) |}.

(** An invocation of one of the props' callbacks, or of [handleError].  The
    first argument of the four callbacks is the number of the file selection
    that the invocation belongs to. *)
Inductive call : Type :=
| CallImageLoaded (sel : nat) (file : File) (dataUrl : jsstring)
| CallImageUpload (sel : nat) (file : File)
| CallImageUploaded (sel : nat) (resp : jsval)
| CallImageUploadError (sel : nat) (error : jsval)
| CallHandleError (errorCode : Z).

(** The component instance and the part of the platform it has work
    pending in.  [next_sel] and [calls] are bookkeeping of the model: they
    number the file selections and record what was invoked. *)
Record World : Type := mkWorld {
  state : ImageUploadState;
  now : N;                          (* the clock, in milliseconds *)
  timers : list (nat * N);          (* pending timeouts: handle, due time *)
  next_timer : nat;                 (* the handle setTimeout returns next *)
  reads : list (nat * File);        (* FileReader reads that have not loaded yet *)
  uploads : list nat;               (* upload promises that have not settled *)
  next_sel : nat;                   (* the number of the next file selection *)
  calls : list call                 (* the invocations so far, latest first *)
}.

Definition initialWorld : World :=
  {| state := initialState; now := 0; timers := []; next_timer := 0;
     reads := []; uploads := []; next_sel := 0; calls := [] |}.

Definition with_state (s : ImageUploadState) (w : World) : World :=
  {| state := s; now := now w; timers := timers w; next_timer := next_timer w;
     reads := reads w; uploads := uploads w; next_sel := next_sel w;
     calls := calls w |}.

Definition with_timers (t : list (nat * N)) (n : nat) (w : World) : World :=
  {| state := state w; now := now w; timers := t; next_timer := n;
     reads := reads w; uploads := uploads w; next_sel := next_sel w;
     calls := calls w |}.

Definition with_reads (r : list (nat * File)) (w : World) : World :=
  {| state := state w; now := now w; timers := timers w;
     next_timer := next_timer w;
     reads := r; uploads := uploads w; next_sel := next_sel w;
     calls := calls w |}.

Definition with_uploads (u : list nat) (w : World) : World :=
  {| state := state w; now := now w; timers := timers w;
     next_timer := next_timer w;
     reads := reads w; uploads := u; next_sel := next_sel w;
     calls := calls w |}.

Definition with_next_sel (n : nat) (w : World) : World :=
  {| state := state w; now := now w; timers := timers w;
     next_timer := next_timer w;
     reads := reads w; uploads := uploads w; next_sel := n;
     calls := calls w |}.

Definition with_now (t : N) (w : World) : World :=
  {| state := state w; now := t; timers := timers w;
     next_timer := next_timer w;
     reads := reads w; uploads := uploads w; next_sel := next_sel w;
     calls := calls w |}.

Definition log (c : call) (w : World) : World :=
  {| state := state w; now := now w; timers := timers w;
     next_timer := next_timer w;
     reads := reads w; uploads := uploads w; next_sel := next_sel w;
     calls := c :: calls w |}.

(** [this.setState(patch)].  The handlers never read the state back, so
    applying the patches in program order gives the state React ends with. *)
Definition setState (p : Patch) (w : World) : World :=
  with_state (merge p (state w)) w.

(** [setTimeout(() => this.setState({ hasError: false, errorText: '' }), delay)]:
    the only timeout the component sets. *)
Definition setTimeout (delay : N) (w : World) : World :=
  with_timers ((next_timer w, (now w + delay)%N) :: timers w) (S (next_timer w)) w.

(** *** hasExtension (lines 63-66) *)
Definition extension_pattern (allowed : list jsstring) : jsstring :=
  js "(" ++ escape_dots (join (js "|") (map toLowerCase allowed)) ++ js ")$".

Definition hasExtension (props : Props) (fileName : jsstring) : option bool :=
  let pattern := extension_pattern (allowedExtensions props) in
  RegExp.test_i pattern (toLowerCase fileName).

(** *** handleError (lines 68-90) *)
Definition error_text (errorCode : Z) : jsstring :=
  if (errorCode =? NO_FILE_ERROR_CODE)%Z then js "No file selected"
  else if (errorCode =? BAD_EXTENSION_ERROR_CODE)%Z then js "Bad file type"
  else if (errorCode =? TOO_BIG_ERROR_CODE)%Z then js "Too big"
  else if (errorCode =? UPLOADING_ERROR_CODE)%Z then js "Error while uploading"
  else js "Unknown error".

Definition handleError (errorCode : Z) (w : World) : World :=
  let errorText := error_text errorCode in
  let w := log (CallHandleError errorCode) w in
  let w := setState {| set_hasError := Some true; set_errorText := Some errorText;
                       set_isUploading := Some true; set_progress := None |} w in
  (* the completion callback of the first setState *)
  let w := setState {| set_isUploading := Some false; set_hasError := None;
                       set_errorText := None; set_progress := None |} w in
  setTimeout 5000 w.

(** [handleError] gives the state once the handler and the completion
    callback of its first [setState] have run.  React commits and renders
    the first patch before it runs that callback: for one render
    [isUploading] is true.  The timeout is set before React commits. *)
Definition handleError_first_commit (errorCode : Z) (w : World) : World :=
  let errorText := error_text errorCode in
  let w := log (CallHandleError errorCode) w in
  let w := setState {| set_hasError := Some true; set_errorText := Some errorText;
                       set_isUploading := Some true; set_progress := None |} w in
  setTimeout 5000 w.

(** *** readFile (lines 121-135)

    [readFile] starts a read; the promise resolves when the reader's [load]
    event arrives with the platform's data URL.  No [error] handler is set
    and [reject] is never called: when the read fails the promise stays
    pending for ever. *)
Definition readFile (sel : nat) (file : File) (w : World) : World :=
  with_reads ((sel, file) :: reads w) w.

Definition reader_onload (file : File) (result : jsstring) : jsstring :=
  replace (js ";base64") (js ";name=" ++ name file ++ js ";base64") result.

(** *** handleFileSelected (lines 92-119)

    [files] is [e.target.files]: absent, or a list of files.  [None] as a
    result: [hasExtension] has no verdict. *)
Definition handleFileSelected (props : Props) (files : option (list File))
    (w : World) : option World :=
  match files with
  | None | Some [] => Some (handleError NO_FILE_ERROR_CODE w)
  | Some (file :: _) =>
      match hasExtension props (name file) with
      | None => None
      | Some false => Some (handleError BAD_EXTENSION_ERROR_CODE w)
      | Some true =>
          if (size file >? maxFileSize props)%Z
          then Some (handleError TOO_BIG_ERROR_CODE w)
          else
            let sel := next_sel w in
            let w := with_next_sel (S sel) w in
            let w := if imageLoaded props then readFile sel file w else w in
            let w :=
              if imageUpload props then
                let w := setState {| set_isUploading := Some true;
                                     set_hasError := None; set_errorText := None;
                                     set_progress := None |} w in
                let w := log (CallImageUpload sel file) w in
                with_uploads (sel :: uploads w) w
              else w in
            Some w
      end
  end.

(** *** handleReportProgress (line 139) *)
Definition handleReportProgress (p : Z) (w : World) : World :=
  setState {| set_progress := Some (Some p); set_isUploading := None;
              set_hasError := None; set_errorText := None |} w.

(** *** The handlers of the upload promise (lines 111-117)

    [upload_then] is the [then] handler when [imageUploaded] is absent or
    returns normally, [upload_catch] the [catch] handler.  The [catch] is
    chained after the [then]: when [imageUploaded] throws, the [catch]
    handler runs with what it threw ([upload_then_throws]). *)
Definition upload_then (props : Props) (sel : nat) (resp : jsval) (w : World) : World :=
  let w := setState {| set_progress := Some None; set_isUploading := Some false;
                       set_hasError := None; set_errorText := None |} w in
  if imageUploaded props then log (CallImageUploaded sel resp) w else w.

Definition upload_catch (props : Props) (sel : nat) (error : jsval) (w : World) : World :=
  let w := setState {| set_isUploading := Some false; set_hasError := None;
                       set_errorText := None; set_progress := None |} w in
  if imageUploadError props then log (CallImageUploadError sel error) w else w.

Definition upload_then_throws (props : Props) (sel : nat) (resp thrown : jsval)
    (w : World) : World :=
  let w := setState {| set_progress := Some None; set_isUploading := Some false;
                       set_hasError := None; set_errorText := None |} w in
  let w := log (CallImageUploaded sel resp) w in
  upload_catch props sel thrown w.

(** The callback of the 5-second timeout (line 89). *)
Definition clear_error (w : World) : World :=
  setState {| set_hasError := Some false; set_errorText := Some [];
              set_isUploading := None; set_progress := None |} w.

(** ** The event loop

    What can happen to a mounted component: the user picks files, a read
    loads or fails, the uploader reports progress, an upload promise
    settles (and [imageUploaded] returns or throws), time passes, a timeout
    that is due runs. *)

Inductive event : Type :=
| Change (files : option (list File))
| ReaderLoad (sel : nat) (result : jsstring)
| ReportProgress (p : Z)
| UploadResolve (sel : nat) (resp : jsval)
| UploadReject (sel : nat) (error : jsval)
| Elapse (dt : N)
| TimerFire (handle : nat)
| ReaderError (sel : nat)
| UploadResolveThrows (sel : nat) (resp thrown : jsval).

Fixpoint lookup {A : Type} (k : nat) (l : list (nat * A)) : option A :=
  match l with
  | [] => None
  | (k', v) :: l' => if k' =? k then Some v else lookup k l'
  end.

Definition remove_key {A : Type} (k : nat) (l : list (nat * A)) : list (nat * A) :=
  filter (fun p => negb (fst p =? k)) l.

Definition pending (k : nat) (l : list nat) : bool := existsb (Nat.eqb k) l.

Definition settle (k : nat) (l : list nat) : list nat :=
  filter (fun k' => negb (k' =? k)) l.

(** [None]: the event cannot happen in [w] (the file input is only
    rendered while [isUploading] is false, line 165; a promise settles once;
    a timeout does not run before it is due), or the handler has no result.
    React runs the completion callback of a [setState] right after it has
    committed, before any other event: [step] gives the world in which the
    next event arrives, and [handleError_first_commit] the one that is
    committed on the way when a selection is rejected. *)
Definition step (props : Props) (ev : event) (w : World) : option World :=
  match ev with
  | Change files =>
      if isUploading (state w) then None
      else handleFileSelected props files w
  | ReaderLoad sel result =>
      match lookup sel (reads w) with
      | Some file =>
          let w := with_reads (remove_key sel (reads w)) w in
          Some (log (CallImageLoaded sel file (reader_onload file result)) w)
      | None => None
      end
  | ReportProgress p => Some (handleReportProgress p w)
  | UploadResolve sel resp =>
      if pending sel (uploads w)
      then Some (upload_then props sel resp (with_uploads (settle sel (uploads w)) w))
      else None
  | UploadReject sel error =>
      if pending sel (uploads w)
      then Some (upload_catch props sel error (with_uploads (settle sel (uploads w)) w))
      else None
  | Elapse dt => Some (with_now (now w + dt)%N w)
  | TimerFire handle =>
      match lookup handle (timers w) with
      | Some due =>
          if (due <=? now w)%N
          then Some (clear_error
                       (with_timers (remove_key handle (timers w)) (next_timer w) w))
          else None
      | None => None
      end
  | ReaderError sel =>
      match lookup sel (reads w) with
      | Some _ => Some (with_reads (remove_key sel (reads w)) w)
      | None => None
      end
  | UploadResolveThrows sel resp thrown =>
      if pending sel (uploads w) then
        if imageUploaded props
        then Some (upload_then_throws props sel resp thrown
                     (with_uploads (settle sel (uploads w)) w))
        else None
      else None
  end.

Fixpoint run (props : Props) (evs : list event) (w : World) : option World :=
  match evs with
  | [] => Some w
  | ev :: evs' =>
      match step props ev w with
      | Some w' => run props evs' w'
      | None => None
      end
  end.

Definition reachable (props : Props) (w : World) : Prop :=
  exists evs, run props evs initialWorld = Some w.

End ImageUpload.

(** ** Notions used to state the properties *)

Module Notions.
Import JS RegExp ImageUpload.

(** [s.endsWith(e)] *)
Definition endsWith (e s : jsstring) : bool :=
  (length e <=? length s) && str_eqb (skipn (length s - length e) s) e.

(** The file name ends with the entry, upper and lower case taken as the
    same. *)
Definition ends_with_ci (e fileName : jsstring) : bool :=
  endsWith (toLowerCase e) (toLowerCase fileName).

(** An entry of the allow-list is plain when none of its characters has a
    meaning in a pattern, the dot apart (which [hasExtension] escapes). *)
Definition plain_char (c : ascii) : bool :=
  match classify c with
  | TLit | TDot => true
  | _ => false
  end.

Definition plain (e : jsstring) : bool := forallb plain_char e.

(** The pattern of a literal string, and of an alternation of literal
    strings. *)
Definition lit (e : jsstring) : regex := seq_of (map RChar e).

Fixpoint alts_of (e : jsstring) (others : list jsstring) : regex :=
  match others with
  | [] => lit e
  | e2 :: others' => RAlt (lit e) (alts_of e2 others')
  end.

(** Equality of strings up to [canonicalize]. *)
Fixpoint ci_eqb (e s : jsstring) : bool :=
  match e, s with
  | [], [] => true
  | c :: e', ch :: s' => (canonicalize ch =? canonicalize c)%N && ci_eqb e' s'
  | _, _ => false
  end.

(** [s] and its suffixes, longest first. *)
Fixpoint tails (s : jsstring) : list jsstring :=
  s :: match s with
       | [] => []
       | _ :: s' => tails s'
       end.

(** A step of the matcher moves the end index forward by what it takes
    from the input. *)
Definition advances (x y : mstate) : Prop :=
  endIndex x <= endIndex y
  /\ endIndex y + length (rest y) = endIndex x + length (rest x).

(** Some match ends at the end of the input. *)
Definition at_end (y : mstate) : bool :=
  match rest y with
  | [] => true
  | _ :: _ => false
  end.

(** The invocations that belong to one file selection. *)
Definition loaded_calls (sel : nat) (cs : list call) : list (File * jsstring) :=
  flat_map (fun c => match c with
                     | CallImageLoaded k f d => if k =? sel then [(f, d)] else []
                     | _ => []
                     end) cs.

Definition upload_calls (sel : nat) (cs : list call) : list File :=
  flat_map (fun c => match c with
                     | CallImageUpload k f => if k =? sel then [f] else []
                     | _ => []
                     end) cs.

Definition uploadError_calls (sel : nat) (cs : list call) : list jsval :=
  flat_map (fun c => match c with
                     | CallImageUploadError k v => if k =? sel then [v] else []
                     | _ => []
                     end) cs.

(** The error codes [handleError] was called with, latest first. *)
Definition raised (cs : list call) : list Z :=
  flat_map (fun c => match c with
                     | CallHandleError code => [code]
                     | _ => []
                     end) cs.

Definition sel_of (c : call) : option nat :=
  match c with
  | CallImageLoaded k _ _ | CallImageUpload k _
  | CallImageUploaded k _ | CallImageUploadError k _ => Some k
  | CallHandleError _ => None
  end.

(** What holds of every world the event loop can reach: selection numbers
    are handed out once, and an upload promise that is still pending has
    not called back. *)
Record wf (w : World) : Prop := mkWf {
  wf_reads_fresh : forall k f, In (k, f) (reads w) -> k < next_sel w;
  wf_uploads_fresh : forall k, In k (uploads w) -> k < next_sel w;
  wf_calls_fresh : forall c k, In c (calls w) -> sel_of c = Some k -> k < next_sel w;
  wf_upload_pending : forall k, In k (uploads w) -> uploadError_calls k (calls w) = []
}.

(** The selection [sel] of [file] is being served, [evs] being the events
    since it was made: the upload callback has been invoked once; the read
    is pending, or has loaded and the loaded callback has been invoked once,
    or has failed and the loaded callback has not been invoked. *)
Definition read_pending (sel : nat) (file : File) (evs : list event) (w : World)
    : Prop :=
  lookup sel (reads w) = Some file
  /\ loaded_calls sel (calls w) = []
  /\ forall r, ~ In (ReaderLoad sel r) evs.

Definition read_done (sel : nat) (file : File) (evs : list event) (w : World)
    : Prop :=
  lookup sel (reads w) = None
  /\ exists result,
       loaded_calls sel (calls w) = [(file, reader_onload file result)]
       /\ In (ReaderLoad sel result) evs
       /\ forall r, In (ReaderLoad sel r) evs -> r = result.

Definition read_failed (sel : nat) (evs : list event) (w : World) : Prop :=
  lookup sel (reads w) = None
  /\ loaded_calls sel (calls w) = []
  /\ forall r, ~ In (ReaderLoad sel r) evs.

Definition served (sel : nat) (file : File) (evs : list event) (w : World) : Prop :=
  sel < next_sel w
  /\ upload_calls sel (calls w) = [file]
  /\ (read_pending sel file evs w \/ read_done sel file evs w
      \/ read_failed sel evs w).

(** The upload of selection [sel] was rejected with [v]. *)
Definition rejected (sel : nat) (v : jsval) (w : World) : Prop :=
  sel < next_sel w
  /\ pending sel (uploads w) = false
  /\ uploadError_calls sel (calls w) = [v].

(** The timeout [handle] is pending with due time [due], or has run, and
    then not before [due]. *)
Definition timer_kept (handle : nat) (due : N) (evs : list event) (w : World) : Prop :=
  handle < next_timer w
  /\ (lookup handle (timers w) = Some due
      \/ (In (TimerFire handle) evs /\ lookup handle (timers w) = None
          /\ (due <= now w)%N)).

(** For 5 seconds from [t0] the error is shown and no timeout can run. *)
Definition error_shown_from (t0 : N) (w : World) : Prop :=
  (t0 <= now w)%N
  /\ ((now w < t0 + 5000)%N ->
      hasError (state w) = true
      /\ forall h d, In (h, d) (timers w) -> (t0 + 5000 <= d)%N).

(** For 5 seconds from [t0] the timeout [handle] set at [t0] is pending. *)
Definition timer_waits (handle : nat) (t0 : N) (w : World) : Prop :=
  handle < next_timer w
  /\ ((now w < t0 + 5000)%N -> lookup handle (timers w) = Some (t0 + 5000)%N).

(** Props used in the examples. *)
Definition all_callbacks (allowed : list jsstring) : Props :=
  {| imageLoaded := true; imageUpload := true;
     imageUploadError := true; imageUploaded := true;
     maxFileSize := 5242880;
     allowedExtensions := allowed |}.

Definition jpg_png : Props := all_callbacks [js "jpg"; js "png"].

Definition allow_all : Props := all_callbacks [].

(** The world 3 seconds after a selection without a file: the error is
    shown, its timeout is due 2 seconds later. *)
Definition error_world : World :=
  match run jpg_png [Change None; Elapse 3000] initialWorld with
  | Some w => w
  | None => initialWorld
  end.

(** The world after [Photo.PNG] has been selected: its upload is pending. *)
Definition uploading_world : World :=
  match run jpg_png [Change (Some [mkFile (js "Photo.PNG") 1000])] initialWorld with
  | Some w => w
  | None => initialWorld
  end.

End Notions.

(** ** The view (lines 141-173)

    What [render] returns, as far as it depends on the state: the button,
    what it shows, and whether the hidden file input is there. *)

Module View.
Import JS ImageUpload.

Inductive color : Type := Primary | Secondary.

Inductive children : Type :=
| CircularProgress (value : option Z)   (* the progress wheel *)
| ErrorMessage (text : jsstring)        (* errorText and the error icon *)
| ButtonContent.                        (* props.buttonContent and props.icon *)

Record view : Type := mkView {
  disabled : bool;
  button_color : color;
  button_children : children;
  file_input : bool                     (* the input of type file is rendered *)
}.

Definition renderChildren (s : ImageUploadState) : children :=
  if isUploading s then CircularProgress (progress s)
  else if hasError s then ErrorMessage (errorText s)
  else ButtonContent.

Definition render (s : ImageUploadState) : view :=
  {| disabled := isUploading s;
     button_color := if hasError s then Secondary else Primary;
     button_children := renderChildren s;
     file_input := negb (isUploading s) |}.

End View.

(** ** Invariants of the event loop *)

Module Invariants.
Import JS ImageUpload Notions.

Definition uploaded_calls (sel : nat) (cs : list call) : list jsval :=
  flat_map (fun c => match c with
                     | CallImageUploaded k v => if k =? sel then [v] else []
                     | _ => []
                     end) cs.

(** [isUploading] tells whether an upload promise is pending, and there is
    never more than one. *)
Definition one_upload (w : World) : Prop :=
  (uploads w = [] /\ isUploading (state w) = false)
  \/ (exists k, uploads w = [k] /\ isUploading (state w) = true).

(** The worlds React commits: those between two events, and the first
    commit of [handleError] when a selection is rejected (line 88). *)
Definition first_commit_of (props : Props) (w' : World) : Prop :=
  exists w files c,
    reachable props w
    /\ step props (Change files) w = Some (handleError c w)
    /\ w' = handleError_first_commit c w.

Definition committed (props : Props) (w' : World) : Prop :=
  reachable props w' \/ first_commit_of props w'.

(** The codes the component itself raises. *)
Definition validation_code (c : Z) : Prop :=
  c = NO_FILE_ERROR_CODE \/ c = BAD_EXTENSION_ERROR_CODE \/ c = TOO_BIG_ERROR_CODE.

(** [hasError] and [errorText] go together. *)
Definition error_consistent (w : World) : Prop :=
  Forall validation_code (raised (calls w))
  /\ ((hasError (state w) = false /\ errorText (state w) = [])
      \/ (hasError (state w) = true
          /\ exists c, validation_code c /\ errorText (state w) = error_text c)).

(** Every timeout was set by an error at most 5 seconds ago, handles are
    handed out once, and an error on display has a timeout pending. *)
Definition timeouts_sound (w : World) : Prop :=
  (forall h d, In (h, d) (timers w) -> h < next_timer w /\ (d <= now w + 5000)%N)
  /\ NoDup (map fst (timers w))
  /\ length (timers w) <= length (raised (calls w))
  /\ (hasError (state w) = true -> timers w <> []).

(** A callback that was invoked was supplied. *)
Definition supplied (props : Props) (c : call) : Prop :=
  match c with
  | CallImageLoaded _ _ _ => imageLoaded props = true
  | CallImageUpload _ _ => imageUpload props = true
  | CallImageUploaded _ _ => imageUploaded props = true
  | CallImageUploadError _ _ => imageUploadError props = true
  | CallHandleError _ => True
  end.

Definition only_supplied (props : Props) (w : World) : Prop :=
  Forall (supplied props) (calls w)
  /\ (reads w <> [] -> imageLoaded props = true)
  /\ (uploads w <> [] -> imageUpload props = true).

(** A pending upload has not reported success. *)
Definition unsettled (w : World) : Prop :=
  forall k, In k (uploads w) -> uploaded_calls k (calls w) = [].

(** The upload of selection [sel] was resolved with [resp], and the error
    callback was invoked with [errs]. *)
Definition resolved (sel : nat) (resp : jsval) (errs : list jsval) (w : World)
    : Prop :=
  sel < next_sel w
  /\ pending sel (uploads w) = false
  /\ uploaded_calls sel (calls w) = [resp]
  /\ uploadError_calls sel (calls w) = errs.

(** [s] holds [pat] somewhere. *)
Definition occurs (pat s : jsstring) : Prop :=
  exists before after, s = before ++ pat ++ after.

(** Props with the callbacks left out. *)
Definition no_callbacks (props : Props) : Prop :=
  imageLoaded props = false /\ imageUpload props = false.

End Invariants.

(** ** Facts about characters *)

Module CharFacts.
Import JS RegExp Notions.

(** A property of all 256 code units can be checked by running it. *)
Lemma ascii_forall (P : ascii -> bool) :
  forallb (fun n => P (ascii_of_nat n)) (seq 0 256) = true ->
  forall a, P a = true.
Proof.
  intros H a. rewrite forallb_forall in H.
  rewrite <- (ascii_nat_embedding a). apply H.
  apply in_seq. pose proof (nat_ascii_bounded a). lia.
Qed.

Lemma plain_lower c : plain_char c = true -> plain_char (lower_char c) = true.
Proof.
  intros H.
  assert (A : implb (plain_char c) (plain_char (lower_char c)) = true)
    by (revert c H; intros c _; revert c; apply ascii_forall; vm_compute; reflexivity).
  rewrite H in A. exact A.
Qed.

(** On lower-cased characters, equality of canonical forms is equality. *)
Lemma canonicalize_lower a b :
  (canonicalize (lower_char a) =? canonicalize (lower_char b))%N
  = char_eqb (lower_char a) (lower_char b).
Proof.
  assert (A : forall a,
    forallb (fun n => Bool.eqb
       (canonicalize (lower_char a) =? canonicalize (lower_char (ascii_of_nat n)))%N
       (char_eqb (lower_char a) (lower_char (ascii_of_nat n)))) (seq 0 256) = true)
    by (apply ascii_forall; vm_compute; reflexivity).
  specialize (A a). rewrite forallb_forall in A.
  apply Bool.eqb_prop.
  specialize (A (nat_of_ascii b)). rewrite ascii_nat_embedding in A.
  apply A. apply in_seq. pose proof (nat_ascii_bounded b). lia.
Qed.

Lemma plain_not_dot c :
  plain_char c = true -> char_eqb c "."%char = false -> classify c = TLit.
Proof.
  unfold plain_char, classify. intros H D. rewrite D in *.
  repeat match goal with
  | |- context [if ?b then _ else _] => destruct b; try discriminate; try reflexivity
  | H : context [if ?b then _ else _] |- _ => destruct b; try discriminate; try reflexivity
  end.
Qed.

Lemma char_eqb_eq a b : char_eqb a b = true -> a = b.
Proof. apply Ascii.eqb_eq. Qed.

Lemma str_eqb_eq a : forall b, str_eqb a b = true <-> a = b.
Proof.
  induction a as [|x a IH]; intros [|y b]; simpl; split; intros H;
    try reflexivity; try discriminate.
  - apply andb_true_iff in H as [H1 H2].
    apply char_eqb_eq in H1. apply IH in H2. congruence.
  - injection H as -> ->. unfold char_eqb. rewrite Ascii.eqb_refl.
    apply IH. reflexivity.
Qed.

End CharFacts.

(** ** The pattern of a plain allow-list *)

Module RegExpFacts.
Import JS RegExp ImageUpload Notions CharFacts.

Lemma escape_dots_app a b : escape_dots (a ++ b) = escape_dots a ++ escape_dots b.
Proof.
  induction a as [|c a IH]; simpl; [reflexivity|].
  destruct (char_eqb c "."%char); simpl; rewrite IH; reflexivity.
Qed.

Lemma plain_toLowerCase e : plain e = true -> plain (toLowerCase e) = true.
Proof.
  unfold plain, toLowerCase. rewrite !forallb_forall. intros H c Hc.
  apply in_map_iff in Hc as (c0 & <- & Hc0). apply plain_lower, H, Hc0.
Qed.

(** The parser reads an escaped plain string as that many literal
    characters. *)
Lemma parse_loop_plain e :
  plain e = true ->
  forall p stack alts cur,
    parse_loop (escape_dots e ++ p) stack alts cur
    = parse_loop p stack alts (rev (map RChar e) ++ cur).
Proof.
  induction e as [|c e IH]; intros Hp p stack alts cur; [reflexivity|].
  simpl in Hp. apply andb_true_iff in Hp as [Hc He].
  simpl escape_dots. destruct (char_eqb c "."%char) eqn:D.
  - apply char_eqb_eq in D. subst c.
    change (parse_loop (escape_dots e ++ p) stack alts (RChar "."%char :: cur)
            = parse_loop p stack alts (rev (map RChar ("."%char :: e)) ++ cur)).
    rewrite (IH He). simpl. rewrite <- app_assoc. reflexivity.
  - pose proof (plain_not_dot c Hc D) as L.
    cbn [app parse_loop]. rewrite L. rewrite (IH He).
    simpl. rewrite <- app_assoc. reflexivity.
Qed.

Lemma parse_loop_alts l :
  forall e alts p alts0 cur0 stack,
    plain e = true -> forallb plain l = true ->
    parse_loop (escape_dots (join (js "|") (e :: l)) ++ ")"%char :: p)
               ((alts0, cur0) :: stack) alts []
    = parse_loop p stack alts0
        (RGroup (fold_left (fun acc a => RAlt a acc) alts (alts_of e l)) :: cur0).
Proof.
  induction l as [|e2 l IH]; intros e alts p alts0 cur0 stack He Hl.
  - cbn [join]. rewrite (parse_loop_plain e He). rewrite app_nil_r.
    cbn [parse_loop]. change (classify ")"%char) with TClose. cbv iota beta.
    unfold close. rewrite rev_involutive. reflexivity.
  - simpl in Hl. apply andb_true_iff in Hl as [He2 Hl].
    change (join (js "|") (e :: e2 :: l))
      with (e ++ js "|" ++ join (js "|") (e2 :: l)).
    rewrite escape_dots_app, <- app_assoc. rewrite (parse_loop_plain e He).
    rewrite app_nil_r.
    change (js "|" ++ join (js "|") (e2 :: l))
      with ("|"%char :: join (js "|") (e2 :: l)).
    change (escape_dots ("|"%char :: join (js "|") (e2 :: l)))
      with ("|"%char :: escape_dots (join (js "|") (e2 :: l))).
    cbn [app parse_loop]. change (classify "|"%char) with TBar. cbv iota beta.
    rewrite rev_involutive.
    rewrite (IH e2 _ p alts0 cur0 stack He2 Hl). reflexivity.
Qed.

(** The alternation never starts with a question mark, so the group that
    holds it is a capturing group. *)
Lemma pattern_head e l t s0 :
  plain e = true ->
  escape_dots (join (js "|") (e :: l)) ++ ")"%char :: t = "?"%char :: s0 -> False.
Proof.
  intros He H.
  destruct e as [|c1 e1].
  - destruct l as [|e2 l]; apply (f_equal (hd " "%char)) in H; discriminate H.
  - simpl in He. apply andb_true_iff in He as [Hc1 _].
    assert (E : exists r, join (js "|") ((c1 :: e1) :: l) = c1 :: r)
      by (destruct l; eexists; reflexivity).
    destruct E as [r E]. rewrite E in H. cbn [escape_dots] in H.
    destruct (char_eqb c1 "."%char); apply (f_equal (hd " "%char)) in H;
      simpl in H; [discriminate H|].
    subst c1. discriminate Hc1.
Qed.

Lemma parse_extension_pattern e l :
  plain e = true -> forallb plain l = true ->
  parse (extension_pattern (e :: l))
  = Some (RSeq (RGroup (alts_of (toLowerCase e) (map toLowerCase l)))
               (RSeq REnd REmpty)).
Proof.
  intros He Hl. unfold parse, extension_pattern.
  change (js "(" ++ ?x) with ("("%char :: x).
  change (js ")$") with (")"%char :: "$"%char :: []).
  change (map toLowerCase (e :: l)) with (toLowerCase e :: map toLowerCase l).
  cbn [parse_loop]. change (classify "("%char) with TOpen. cbv iota beta.
  assert (Hl' : forallb plain (map toLowerCase l) = true).
  { rewrite forallb_forall in *. intros x Hx.
    apply in_map_iff in Hx as (x0 & <- & Hx0). apply plain_toLowerCase, Hl, Hx0. }
  pose proof (parse_loop_alts (map toLowerCase l) (toLowerCase e) []
                ["$"%char] [] [] [] (plain_toLowerCase e He) Hl') as P.
  destruct (escape_dots (join (js "|") (toLowerCase e :: map toLowerCase l))
            ++ ")"%char :: ["$"%char]) as [|c0 s0] eqn:E.
  - destruct (escape_dots (join (js "|") (toLowerCase e :: map toLowerCase l)));
      discriminate.
  - destruct (Ascii.eqb_spec c0 "?"%char) as [->|N].
    2:{ assert (M : forall A (x y : A), match c0 :: s0 with
                                     | "?"%char :: _ => x
                                     | _ => y
                                     end = y).
        { intros A x y. destruct c0 as [[] [] [] [] [] [] [] []]; try reflexivity.
          contradiction N; reflexivity. }
        rewrite M. rewrite P. reflexivity. }
    (* the first character comes from a plain entry, or is the closing paren *)
    exfalso. exact (pattern_head _ _ _ _ (plain_toLowerCase e He) E).
Qed.

(** The pattern of the empty allow-list. *)
Lemma parse_extension_pattern_nil :
  extension_pattern [] = js "()$"
  /\ parse (extension_pattern []) = Some (RSeq (RGroup REmpty) (RSeq REnd REmpty)).
Proof. split; reflexivity. Qed.

(** *** The fuel of [repeat_matcher] *)

Lemma advances_refl x : advances x x.
Proof. split; reflexivity. Qed.

Lemma advances_trans x y z : advances x y -> advances y z -> advances x z.
Proof. unfold advances. intros [A1 A2] [B1 B2]. split; lia. Qed.

Lemma repeat_matcher_advances m :
  (forall x y, In y (m x) -> advances x y) ->
  forall fuel x y, In y (repeat_matcher m fuel x) -> advances x y.
Proof.
  intros Hm. induction fuel as [|fuel IH]; intros x y H.
  - destruct H as [<-|[]]. apply advances_refl.
  - cbn [repeat_matcher] in H. apply in_app_or in H as [H|[<-|[]]].
    + apply in_flat_map in H as (z & Hz & H).
      destruct (endIndex z =? endIndex x); [contradiction|].
      apply (advances_trans x z y (Hm x z Hz) (IH z y H)).
    + apply advances_refl.
Qed.

Lemma matcher_advances r : forall x y, In y (matcher r x) -> advances x y.
Proof.
  induction r as [|c| | | |r1 IH1 r2 IH2|r1 IH1 r2 IH2|r IH|r IH|r IH|r IH];
    intros x y H; cbn [matcher] in H.
  - destruct H as [<-|[]]. apply advances_refl.
  - destruct (rest x) as [|ch t] eqn:E; [contradiction|].
    destruct (canonicalize ch =? canonicalize c)%N; [|contradiction].
    destruct H as [<-|[]]. unfold advances. cbn. rewrite E. cbn. lia.
  - destruct (rest x) as [|ch t] eqn:E; [contradiction|].
    destruct (line_terminator ch); [contradiction|].
    destruct H as [<-|[]]. unfold advances. cbn. rewrite E. cbn. lia.
  - destruct (endIndex x =? 0); [|contradiction].
    destruct H as [<-|[]]. apply advances_refl.
  - destruct (rest x); [|contradiction].
    destruct H as [<-|[]]. apply advances_refl.
  - apply in_flat_map in H as (z & Hz & H).
    apply (advances_trans x z y (IH1 x z Hz) (IH2 z y H)).
  - apply in_app_or in H as [H|H]; [apply IH1, H | apply IH2, H].
  - apply IH, H.
  - apply (repeat_matcher_advances (matcher r) IH _ x y H).
  - apply in_flat_map in H as (z & Hz & H).
    apply (advances_trans x z y (IH x z Hz)).
    apply (repeat_matcher_advances (matcher r) IH _ z y H).
  - apply in_app_or in H as [H|[<-|[]]]; [|apply advances_refl].
    apply filter_In in H as [H _]. apply IH, H.
Qed.

Lemma flat_map_same {A B} (f g : A -> list B) l :
  (forall z, In z l -> f z = g z) -> flat_map f l = flat_map g l.
Proof.
  induction l as [|a l IH]; intros H; [reflexivity|].
  cbn [flat_map]. rewrite (H a (or_introl eq_refl)), IH; [reflexivity|].
  intros z Hz. apply H. right. exact Hz.
Qed.

Lemma flat_map_all_nil {A B} (f : A -> list B) l :
  (forall z, In z l -> f z = []) -> flat_map f l = [].
Proof.
  intros H. rewrite (flat_map_same f (fun _ => []) l H). clear H.
  induction l as [|a l IH]; [reflexivity | exact IH].
Qed.

(** The length of the remaining input is fuel enough: more fuel gives the
    same result. *)
Lemma repeat_matcher_fuel r : forall f1 f2 x,
  length (rest x) <= f1 -> length (rest x) <= f2 ->
  repeat_matcher (matcher r) f1 x = repeat_matcher (matcher r) f2 x.
Proof.
  assert (Z0 : forall f x, length (rest x) = 0 ->
            repeat_matcher (matcher r) f x = [x]).
  { intros [|f] x Hx; [reflexivity|]. cbn [repeat_matcher].
    replace (flat_map _ (matcher r x)) with (@nil mstate); [reflexivity|].
    symmetry. apply flat_map_all_nil. intros z Hz.
    destruct (matcher_advances r x z Hz) as [A1 A2].
    replace (endIndex z =? endIndex x) with true; [reflexivity|].
    symmetry. apply Nat.eqb_eq. lia. }
  induction f1 as [|f1 IH]; intros f2 x H1 H2.
  - rewrite (Z0 f2 x) by lia. reflexivity.
  - destruct f2 as [|f2]; [rewrite (Z0 (S f1) x) by lia; reflexivity|].
    cbn [repeat_matcher]. f_equal. apply flat_map_same. intros z Hz.
    destruct (Nat.eqb_spec (endIndex z) (endIndex x)) as [E|E]; [reflexivity|].
    destruct (matcher_advances r x z Hz) as [A1 A2].
    apply IH; lia.
Qed.

End RegExpFacts.

(** ** hasExtension *)

Module HasExtension.
Import JS RegExp ImageUpload Notions CharFacts RegExpFacts.

Lemma matches_then_end g x :
  matches_at (RSeq g (RSeq REnd REmpty)) x = existsb at_end (matcher g x).
Proof.
  unfold matches_at. cbn [matcher].
  induction (matcher g x) as [|y ys IH]; [reflexivity|].
  cbn [flat_map existsb]. unfold at_end at 1.
  destruct (rest y); simpl in *; [reflexivity | exact IH].
Qed.

Lemma ends_lit e : forall x, existsb at_end (matcher (lit e) x) = ci_eqb e (rest x).
Proof.
  induction e as [|c e IH]; intros x.
  - simpl. unfold at_end. destruct (rest x); reflexivity.
  - change (lit (c :: e)) with (RSeq (RChar c) (lit e)). cbn [matcher ci_eqb].
    destruct (rest x) as [|ch t]; [reflexivity|].
    destruct (canonicalize ch =? canonicalize c)%N; [|reflexivity].
    cbn [flat_map]. rewrite app_nil_r. rewrite IH. reflexivity.
Qed.

Lemma ends_alts l : forall e x,
  existsb at_end (matcher (alts_of e l) x)
  = existsb (fun e' => ci_eqb e' (rest x)) (e :: l).
Proof.
  induction l as [|e2 l IH]; intros e x.
  - simpl. rewrite ends_lit, orb_false_r. reflexivity.
  - cbn [alts_of matcher]. rewrite existsb_app, ends_lit, IH. reflexivity.
Qed.

Lemma search_alts e l s : forall i,
  search (RSeq (RGroup (alts_of e l)) (RSeq REnd REmpty)) i s
  = existsb (fun t => existsb (fun e' => ci_eqb e' t) (e :: l)) (tails s).
Proof.
  induction s as [|c s IH]; intros i; cbn [search tails existsb];
    rewrite matches_then_end; cbn [matcher]; rewrite ends_alts; cbn [rest].
  - reflexivity.
  - rewrite IH. reflexivity.
Qed.

Lemma search_empty_group s : forall i,
  search (RSeq (RGroup REmpty) (RSeq REnd REmpty)) i s = true.
Proof.
  induction s as [|c s IH]; intros i; cbn [search].
  - reflexivity.
  - rewrite IH. apply orb_true_r.
Qed.

Lemma ci_eqb_lower e : forall s,
  ci_eqb (toLowerCase e) (toLowerCase s) = str_eqb (toLowerCase s) (toLowerCase e).
Proof.
  induction e as [|c e IH]; intros [|ch s]; try reflexivity.
  cbn [toLowerCase map ci_eqb str_eqb]. rewrite canonicalize_lower.
  fold (toLowerCase e) (toLowerCase s). rewrite IH. reflexivity.
Qed.

Lemma str_eqb_length a : forall b, str_eqb a b = true -> length a = length b.
Proof.
  intros b H. apply str_eqb_eq in H. congruence.
Qed.

Lemma tails_endsWith e s :
  existsb (fun t => str_eqb t e) (tails s) = endsWith e s.
Proof.
  induction s as [|a s IH]; cbn [tails existsb].
  - unfold endsWith. destruct e; reflexivity.
  - rewrite IH. unfold endsWith. cbn [length].
    destruct (Nat.leb_spec (length e) (length s)) as [L|L].
    + replace (length e <=? S (length s)) with true
        by (symmetry; apply Nat.leb_le; lia).
      replace (S (length s) - length e) with (S (length s - length e)) by lia.
      cbn [skipn andb].
      destruct (str_eqb (a :: s) e) eqn:E; [|reflexivity].
      apply str_eqb_length in E. cbn [length] in E. lia.
    + cbn [andb]. rewrite orb_false_r.
      destruct (Nat.eq_dec (length e) (S (length s))) as [E|E].
      * rewrite E, Nat.leb_refl, Nat.sub_diag. reflexivity.
      * replace (length e <=? S (length s)) with false
          by (symmetry; apply Nat.leb_gt; lia).
        destruct (str_eqb (a :: s) e) eqn:E'; [|reflexivity].
        apply str_eqb_length in E'. cbn [length] in E'. lia.
Qed.

Lemma tails_toLowerCase s : tails (toLowerCase s) = map toLowerCase (tails s).
Proof.
  induction s as [|a s IH]; [reflexivity|].
  cbn [toLowerCase map tails]. fold (toLowerCase s). rewrite IH. reflexivity.
Qed.

Lemma existsb_ext_in {A} (f g : A -> bool) l :
  (forall x, In x l -> f x = g x) -> existsb f l = existsb g l.
Proof.
  induction l as [|a l IH]; intros H; [reflexivity|].
  simpl. rewrite (H a (or_introl eq_refl)), IH; [reflexivity|].
  intros x Hx. apply H. right. exact Hx.
Qed.

Lemma existsb_map_comp {A B} (f : B -> bool) (g : A -> B) l :
  existsb f (map g l) = existsb (fun x => f (g x)) l.
Proof.
  induction l as [|a l IH]; simpl; [reflexivity | rewrite IH; reflexivity].
Qed.

Lemma existsb_swap {A B} (f : A -> B -> bool) la lb :
  existsb (fun a => existsb (f a) lb) la
  = existsb (fun b => existsb (fun a => f a b) la) lb.
Proof.
  induction la as [|a la IH]; simpl.
  - induction lb; simpl; congruence.
  - rewrite IH. clear IH. induction lb as [|b lb IH]; simpl; [reflexivity|].
    rewrite <- IH. destruct (f a b), (existsb (f a) lb),
      (existsb (fun a0 => f a0 b) la); reflexivity.
Qed.

(** The verdict on a plain, non-empty allow-list. *)
Lemma hasExtension_plain e l props fileName :
  allowedExtensions props = e :: l ->
  forallb plain (e :: l) = true ->
  hasExtension props fileName
  = Some (existsb (fun e' => ends_with_ci e' fileName) (e :: l)).
Proof.
  intros EL Hp. cbn [forallb] in Hp. apply andb_true_iff in Hp as [He Hl].
  unfold hasExtension, test_i. rewrite EL.
  rewrite (parse_extension_pattern e l He Hl). f_equal.
  rewrite search_alts, tails_toLowerCase.
  rewrite existsb_swap.
  change (toLowerCase e :: map toLowerCase l) with (map toLowerCase (e :: l)).
  rewrite existsb_map_comp. apply existsb_ext_in. intros e' _.
  unfold ends_with_ci. rewrite <- tails_endsWith.
  rewrite tails_toLowerCase, !existsb_map_comp.
  apply existsb_ext_in. intros t _. apply ci_eqb_lower.
Qed.

End HasExtension.

(** ** Validation: handleFileSelected up to the dispatch *)

Module Validation.
Import JS RegExp ImageUpload Notions CharFacts RegExpFacts HasExtension.

Lemma raised_handleError code w :
  raised (calls (handleError code w)) = code :: raised (calls w).
Proof. reflexivity. Qed.

Lemma cons_neq {A} (x : A) l : l <> x :: l.
Proof.
  intros H. apply (f_equal (@length A)) in H. simpl in H. lia.
Qed.

Lemma gtb_false x y : (x <= y)%Z -> (x >? y)%Z = false.
Proof. intros H. rewrite Z.gtb_ltb. apply Z.ltb_ge. exact H. Qed.

Lemma gtb_true x y : (x > y)%Z -> (x >? y)%Z = true.
Proof. intros H. rewrite Z.gtb_ltb. apply Z.ltb_lt. lia. Qed.

(** What a valid selection leaves behind. *)
Lemma handleFileSelected_valid props file others w :
  hasExtension props (name file) = Some true ->
  (size file <= maxFileSize props)%Z ->
  exists w',
    handleFileSelected props (Some (file :: others)) w = Some w'
    /\ calls w' = (if imageUpload props
                   then [CallImageUpload (next_sel w) file] else []) ++ calls w
    /\ reads w' = (if imageLoaded props then [(next_sel w, file)] else []) ++ reads w
    /\ uploads w' = (if imageUpload props then [next_sel w] else []) ++ uploads w
    /\ isUploading (state w') = (if imageUpload props then true
                                 else isUploading (state w))
    /\ hasError (state w') = hasError (state w)
    /\ errorText (state w') = errorText (state w)
    /\ progress (state w') = progress (state w)
    /\ next_sel w' = S (next_sel w)
    /\ timers w' = timers w /\ next_timer w' = next_timer w /\ now w' = now w.
Proof.
  intros HE HS. unfold handleFileSelected. rewrite HE.
  replace (size file >? maxFileSize props)%Z with false
    by (symmetry; apply gtb_false; exact HS).
  eexists. split; [reflexivity|].
  destruct (imageLoaded props), (imageUpload props); cbn; repeat split; reflexivity.
Qed.

(** Entries with pattern syntax are read as patterns: [jp?g] accepts a name
    ending in [jg], and [c++] is no pattern at all. *)
Example hasExtension_question_mark :
  hasExtension (all_callbacks [js "jp?g"]) (js "photo.jg") = Some true.
Proof. reflexivity. Qed.

Example hasExtension_double_plus :
  hasExtension (all_callbacks [js "c++"]) (js "main.c++") = None.
Proof. reflexivity. Qed.

(** The dot of an entry is a dot. *)
Example hasExtension_dot :
  hasExtension (all_callbacks [js "tar.gz"]) (js "a.TAR.GZ") = Some true
  /\ hasExtension (all_callbacks [js "tar.gz"]) (js "a.tarxgz") = Some false.
Proof. split; reflexivity. Qed.

(** C1 (as amended): on a non-empty allow-list of plain entries,
    [hasExtension] accepts a file name exactly when the name ends, upper and
    lower case taken as the same, with one of the entries; a name that no
    entry matches is rejected with error code 2. *)
Theorem hasExtension_iff_suffix (props : Props) (fileName : jsstring) :
  allowedExtensions props <> [] ->
  forallb plain (allowedExtensions props) = true ->
  hasExtension props fileName
  = Some (existsb (fun e => ends_with_ci e fileName) (allowedExtensions props))
  /\ (existsb (fun e => ends_with_ci e fileName) (allowedExtensions props) = false ->
      forall sz others w,
        handleFileSelected props (Some (mkFile fileName sz :: others)) w
        = Some (handleError BAD_EXTENSION_ERROR_CODE w)).
Proof.
  intros NE Hp. destruct (allowedExtensions props) as [|e l] eqn:EL; [congruence|].
  pose proof (hasExtension_plain e l props fileName EL Hp) as H.
  split; [exact H|].
  intros HF sz others w. unfold handleFileSelected. cbn [name].
  rewrite H, HF. reflexivity.
Qed.

Lemma hasExtension_iff_suffix_witness :
  hasExtension jpg_png (js "Photo.PNG") = Some true
  /\ forall w, handleFileSelected jpg_png (Some [mkFile (js "photo.gif") 10]) w
               = Some (handleError 2 w).
Proof.
  split.
  - exact (proj1 (hasExtension_iff_suffix jpg_png (js "Photo.PNG")
                    ltac:(discriminate) eq_refl)).
  - intros w.
    exact (proj2 (hasExtension_iff_suffix jpg_png (js "photo.gif")
                    ltac:(discriminate) eq_refl) eq_refl 10%Z [] w).
Defined.

(** C1 as stated fails on the empty allow-list: no entry matches
    [photo.gif], and it is accepted. *)
Lemma hasExtension_iff_suffix_counterexample :
  ~ (forall (props : Props) (fileName : jsstring),
       hasExtension props fileName
       = Some (existsb (fun e => ends_with_ci e fileName) (allowedExtensions props))).
Proof.
  intros H. specialize (H allow_all (js "photo.gif")).
  vm_compute in H. discriminate H.
Qed.

(** C9: with an empty allow-list the pattern is [()$], [hasExtension]
    accepts every file name, and no file is rejected with error code 2. *)
Theorem hasExtension_empty_allow_list (props : Props) (fileName : jsstring) :
  allowedExtensions props = [] ->
  extension_pattern (allowedExtensions props) = js "()$"
  /\ hasExtension props fileName = Some true
  /\ forall sz others w,
       exists w',
         handleFileSelected props (Some (mkFile fileName sz :: others)) w = Some w'
         /\ (raised (calls w') = raised (calls w)
             \/ raised (calls w') = TOO_BIG_ERROR_CODE :: raised (calls w)).
Proof.
  intros EL.
  assert (HE : hasExtension props fileName = Some true).
  { unfold hasExtension, test_i. rewrite EL.
    rewrite (proj2 parse_extension_pattern_nil), search_empty_group. reflexivity. }
  rewrite EL. split; [reflexivity|]. split; [exact HE|].
  intros sz others w.
  destruct (Z_le_gt_dec sz (maxFileSize props)) as [L|G].
  - destruct (handleFileSelected_valid props (mkFile fileName sz) others w HE L)
      as (w' & E & C & _).
    exists w'. split; [exact E|]. left. rewrite C.
    destruct (imageUpload props); reflexivity.
  - exists (handleError TOO_BIG_ERROR_CODE w). split.
    + unfold handleFileSelected. cbn [name size]. rewrite HE.
      replace (sz >? maxFileSize props)%Z with true
        by (symmetry; apply gtb_true; lia).
      reflexivity.
    + right. apply raised_handleError.
Qed.

Lemma hasExtension_empty_allow_list_witness :
  hasExtension allow_all (js "photo.gif") = Some true.
Proof.
  exact (proj1 (proj2 (hasExtension_empty_allow_list allow_all (js "photo.gif")
                         eq_refl))).
Defined.

(** C2 (as amended): a selected file whose name passes the extension check
    is rejected with error code 3 exactly when its size is greater than
    [maxFileSize]; a file of exactly that size is accepted. *)
Theorem too_big_iff (props : Props) (file : File) (others : list File) (w : World) :
  hasExtension props (name file) = Some true ->
  exists w',
    handleFileSelected props (Some (file :: others)) w = Some w'
    /\ (raised (calls w') = TOO_BIG_ERROR_CODE :: raised (calls w)
        <-> (size file > maxFileSize props)%Z)
    /\ ((size file > maxFileSize props)%Z -> w' = handleError TOO_BIG_ERROR_CODE w)
    /\ ((size file <= maxFileSize props)%Z -> raised (calls w') = raised (calls w)).
Proof.
  intros HE.
  destruct (Z_le_gt_dec (size file) (maxFileSize props)) as [L|G].
  - destruct (handleFileSelected_valid props file others w HE L)
      as (w' & E & C & _).
    assert (R : raised (calls w') = raised (calls w))
      by (rewrite C; destruct (imageUpload props); reflexivity).
    exists w'. split; [exact E|]. split; [|split].
    + rewrite R. split; [intros H; exfalso; exact (cons_neq _ _ H) | lia].
    + lia.
    + intros _. exact R.
  - exists (handleError TOO_BIG_ERROR_CODE w). split; [|split; [|split]].
    + unfold handleFileSelected. rewrite HE.
      replace (size file >? maxFileSize props)%Z with true
        by (symmetry; apply gtb_true; lia).
      reflexivity.
    + rewrite raised_handleError. split; [intros _; exact G | reflexivity].
    + reflexivity.
    + lia.
Qed.

Lemma too_big_iff_witness :
  (exists w', handleFileSelected defaultProps
                (Some [mkFile (js "a.png") 6000000]) initialWorld = Some w'
              /\ raised (calls w') = [3%Z])
  /\ (exists w', handleFileSelected defaultProps
                   (Some [mkFile (js "a.png") 5242880]) initialWorld = Some w'
                 /\ raised (calls w') = []).
Proof.
  split.
  - destruct (too_big_iff defaultProps (mkFile (js "a.png") 6000000) []
                initialWorld eq_refl) as (w' & E & I & _).
    exists w'. split; [exact E|]. apply I. reflexivity.
  - destruct (too_big_iff defaultProps (mkFile (js "a.png") 5242880) []
                initialWorld eq_refl) as (w' & E & _ & _ & I).
    exists w'. split; [exact E|]. apply I. discriminate.
Defined.

(** C2 as stated fails for a file with a bad extension: [photo.gif] of
    6,000,000 bytes is over the default maximum, and the error code is 2. *)
Lemma too_big_iff_counterexample :
  ~ (forall (props : Props) (file : File) (others : list File) (w : World),
       exists w',
         handleFileSelected props (Some (file :: others)) w = Some w'
         /\ (raised (calls w') = TOO_BIG_ERROR_CODE :: raised (calls w)
             <-> (size file > maxFileSize props)%Z)).
Proof.
  intros H.
  destruct (H defaultProps (mkFile (js "photo.gif") 6000000) [] initialWorld)
    as (w' & E & I).
  vm_compute in E. injection E as <-.
  assert (G : (size (mkFile (js "photo.gif") 6000000) > maxFileSize defaultProps)%Z)
    by reflexivity.
  apply I in G. vm_compute in G. discriminate G.
Qed.

(** C7: a selection event without a file raises error code 1 whatever the
    props are; no callback is invoked, no read and no upload is started. *)
Theorem no_file_selected (props : Props) (files : option (list File)) (w : World) :
  files = None \/ files = Some [] ->
  exists w',
    handleFileSelected props files w = Some w'
    /\ w' = handleError NO_FILE_ERROR_CODE w
    /\ calls w' = CallHandleError 1 :: calls w
    /\ errorText (state w') = js "No file selected"
    /\ hasError (state w') = true
    /\ reads w' = reads w
    /\ uploads w' = uploads w
    /\ (forall k, loaded_calls k (calls w') = loaded_calls k (calls w))
    /\ (forall k, upload_calls k (calls w') = upload_calls k (calls w)).
Proof.
  intros [-> | ->]; exists (handleError NO_FILE_ERROR_CODE w);
    repeat split; reflexivity.
Qed.

Lemma no_file_selected_witness :
  handleFileSelected allow_all (Some []) initialWorld
  = Some (handleError 1 initialWorld).
Proof.
  destruct (no_file_selected allow_all (Some []) initialWorld
              (or_intror eq_refl)) as (w' & E & -> & _).
  exact E.
Defined.

(** C4: [handleError] turns every error code into the text it shows: 1, 2,
    3 and 4 have their own text, every other value gives "Unknown error". *)
Theorem handleError_text (errorCode : Z) (w : World) :
  hasError (state (handleError errorCode w)) = true
  /\ errorText (state (handleError errorCode w))
     = match errorCode with
       | 1%Z => js "No file selected"
       | 2%Z => js "Bad file type"
       | 3%Z => js "Too big"
       | 4%Z => js "Error while uploading"
       | _ => js "Unknown error"
       end.
Proof.
  split; [reflexivity|].
  change (errorText (state (handleError errorCode w))) with (error_text errorCode).
  unfold error_text, NO_FILE_ERROR_CODE, BAD_EXTENSION_ERROR_CODE,
    TOO_BIG_ERROR_CODE, UPLOADING_ERROR_CODE.
  destruct errorCode as [|p|p]; try reflexivity.
  destruct p as [[[p|p|]|[p|p|]|]|[[p|p|]|[p|p|]|]|]; reflexivity.
Qed.

End Validation.

(** ** readFile: the data URL *)

Module DataUrl.
Import JS ImageUpload Notions CharFacts.

Lemma starts_with_app pat : forall s,
  starts_with pat s = true -> s = pat ++ skipn (length pat) s.
Proof.
  induction pat as [|x pat IH]; intros s H; [reflexivity|].
  destruct s as [|y s]; [discriminate H|].
  simpl in H. apply andb_true_iff in H as [H1 H2].
  apply char_eqb_eq in H1. subst y. simpl. f_equal. apply IH, H2.
Qed.

(** [find_first] splits at an occurrence of the pattern. *)
Lemma find_first_split pat s : forall before after,
  find_first pat s = Some (before, after) -> s = before ++ pat ++ after.
Proof.
  induction s as [|c s IH]; intros before after H.
  - simpl in H. destruct (starts_with pat []) eqn:E; [|discriminate H].
    injection H as <- <-. apply (starts_with_app pat [] E).
  - cbn [find_first] in H. destruct (starts_with pat (c :: s)) eqn:E.
    + injection H as <- <-. apply (starts_with_app pat (c :: s) E).
    + destruct (find_first pat s) as [[b a]|]; [|discriminate H].
      injection H as <- <-. simpl. f_equal. apply IH. reflexivity.
Qed.

(** A template without a dollar sign is copied as it is. *)
Lemma getSubstitution_no_dollar matched before after template :
  forallb (fun c => negb (char_eqb c "$"%char)) template = true ->
  getSubstitution matched before after template = template.
Proof.
  induction template as [|c t IH]; intros H; [reflexivity|].
  simpl in H. apply andb_true_iff in H as [Hc Ht].
  cbn [getSubstitution]. destruct (char_eqb c "$"%char); [discriminate Hc|].
  rewrite (IH Ht). reflexivity.
Qed.

(** For a file name without a dollar sign, the first [;base64] of the data
    URL becomes [;name=<file name>;base64]. *)
Lemma reader_onload_no_dollar file result before after :
  forallb (fun c => negb (char_eqb c "$"%char)) (name file) = true ->
  find_first (js ";base64") result = Some (before, after) ->
  result = before ++ js ";base64" ++ after
  /\ reader_onload file result
     = before ++ (js ";name=" ++ name file ++ js ";base64") ++ after.
Proof.
  intros Hn Hf. split; [apply find_first_split, Hf|].
  unfold reader_onload, replace. rewrite Hf.
  rewrite getSubstitution_no_dollar; [reflexivity|].
  rewrite !forallb_app, Hn. reflexivity.
Qed.

(** C3, the example of the specification: [cat.png]. *)
Example reader_onload_cat :
  reader_onload (mkFile (js "cat.png") 3) (js "data:image/png;base64,AAA")
  = js "data:image/png;name=cat.png;base64,AAA".
Proof. reflexivity. Qed.

(** C3: the file name is used as a replacement template, so a dollar sign in
    it is not copied: for the file [cat$$.png] the data URL names the file
    [cat$.png]. *)
Theorem reader_onload_dollar :
  reader_onload (mkFile (js "cat$$.png") 3) (js "data:image/png;base64,AAA")
  = js "data:image/png;name=cat$.png;base64,AAA"
  /\ reader_onload (mkFile (js "cat$$.png") 3) (js "data:image/png;base64,AAA")
     <> js "data:image/png;name=cat$$.png;base64,AAA".
Proof. split; [reflexivity | discriminate]. Qed.

End DataUrl.

(** ** The event loop: what every step preserves *)

Module EventLoop.
Import JS ImageUpload Notions Invariants Validation.

Lemma lookup_In {A} k (l : list (nat * A)) v : lookup k l = Some v -> In (k, v) l.
Proof.
  induction l as [|[k' v'] l IH]; simpl; [discriminate|].
  destruct (Nat.eqb_spec k' k) as [->|N].
  - intros [= ->]. left. reflexivity.
  - intros H. right. apply IH, H.
Qed.

Lemma lookup_remove_other {A} k k' (l : list (nat * A)) :
  k <> k' -> lookup k (remove_key k' l) = lookup k l.
Proof.
  intros N. induction l as [|[k0 v0] l IH]; [reflexivity|].
  unfold remove_key in *. cbn [filter fst lookup].
  destruct (Nat.eqb_spec k0 k') as [->|N0]; cbn [negb lookup].
  - rewrite IH. destruct (Nat.eqb_spec k' k); [congruence | reflexivity].
  - rewrite IH. reflexivity.
Qed.

Lemma lookup_remove_same {A} k (l : list (nat * A)) : lookup k (remove_key k l) = None.
Proof.
  induction l as [|[k0 v0] l IH]; [reflexivity|].
  unfold remove_key in *. cbn [filter fst].
  destruct (Nat.eqb_spec k0 k) as [->|N0]; cbn [negb lookup]; [exact IH|].
  destruct (Nat.eqb_spec k0 k); [congruence | exact IH].
Qed.

Lemma In_remove_key {A} k (l : list (nat * A)) p : In p (remove_key k l) -> In p l.
Proof. unfold remove_key. intros H. apply filter_In in H. tauto. Qed.

Lemma pending_In k l : pending k l = true <-> In k l.
Proof.
  unfold pending. rewrite existsb_exists. split.
  - intros (x & Hx & E). apply Nat.eqb_eq in E. subst x. exact Hx.
  - intros H. exists k. split; [exact H | apply Nat.eqb_refl].
Qed.

Lemma In_settle k k' l : In k' (settle k l) -> In k' l /\ k' <> k.
Proof.
  unfold settle. intros H. apply filter_In in H as [H1 H2]. split; [exact H1|].
  intros ->. rewrite Nat.eqb_refl in H2. discriminate H2.
Qed.

Lemma pending_settle k l : pending k (settle k l) = false.
Proof.
  destruct (pending k (settle k l)) eqn:E; [|reflexivity].
  apply pending_In, In_settle in E. tauto.
Qed.

Lemma pending_settle_other k k' l :
  pending k l = false -> pending k (settle k' l) = false.
Proof.
  intros H. destruct (pending k (settle k' l)) eqn:E; [|reflexivity].
  apply pending_In, In_settle in E as [E _]. apply pending_In in E. congruence.
Qed.

(** No invocation belongs to a selection number that was not handed out. *)
Lemma fresh_no_calls n cs :
  (forall c k, In c cs -> sel_of c = Some k -> k < n) ->
  loaded_calls n cs = [] /\ upload_calls n cs = [] /\ uploadError_calls n cs = [].
Proof.
  induction cs as [|c cs IH]; intros H; [repeat split|].
  destruct IH as (I1 & I2 & I3).
  { intros c' k Hc. apply H. right. exact Hc. }
  assert (F : forall k, sel_of c = Some k -> (k =? n) = false).
  { intros k Hk. apply Nat.eqb_neq. specialize (H c k (or_introl eq_refl) Hk). lia. }
  unfold loaded_calls, upload_calls, uploadError_calls in *. cbn [flat_map].
  rewrite I1, I2, I3.
  destruct c; cbn [sel_of] in F; try rewrite (F _ eq_refl); repeat split.
Qed.

(** The two ways [handleFileSelected] can end. *)
Lemma handleFileSelected_cases props files w w' :
  handleFileSelected props files w = Some w' ->
  (exists code, w' = handleError code w)
  \/ (exists file others,
        files = Some (file :: others)
        /\ hasExtension props (name file) = Some true
        /\ (size file <= maxFileSize props)%Z).
Proof.
  unfold handleFileSelected.
  destruct files as [[|file others]|]; try (intros [= <-]; left; eexists; reflexivity).
  destruct (hasExtension props (name file)) as [[|]|] eqn:HE;
    try discriminate; try (intros [= <-]; left; eexists; reflexivity).
  destruct (size file >? maxFileSize props)%Z eqn:G;
    try (intros [= <-]; left; eexists; reflexivity).
  intros _. right. exists file, others.
  rewrite Z.gtb_ltb in G. apply Z.ltb_ge in G. repeat split; assumption.
Qed.

Lemma wf_initial : wf initialWorld.
Proof. constructor; simpl; intros; contradiction. Qed.

Lemma wf_handleError code w : wf w -> wf (handleError code w).
Proof.
  intros [R U C P]. constructor; cbn.
  - exact R.
  - exact U.
  - intros c k [<-|H]; [discriminate | apply C, H].
  - exact P.
Qed.

Lemma wf_step props ev w w' : wf w -> step props ev w = Some w' -> wf w'.
Proof.
  intros W. pose proof W as [R U C P].
  destruct ev as [files|sel result|p|sel resp|sel error|dt|handle|sel
                  |sel resp thrown]; cbn [step].
  - destruct (isUploading (state w)); [discriminate|]. intros H.
    destruct (handleFileSelected_cases props files w w' H)
      as [[code ->] | (file & others & -> & HE & HS)].
    { apply wf_handleError, W. }
    destruct (handleFileSelected_valid props file others w HE HS)
      as (w1 & E & Ec & Er & Eu & _ & _ & _ & _ & En & _).
    rewrite E in H. injection H as <-.
    destruct (fresh_no_calls (next_sel w) (calls w) C) as (_ & _ & F).
    constructor; rewrite ?Ec, ?Er, ?Eu, ?En.
    + intros k f Hk. apply in_app_or in Hk as [Hk|Hk].
      * destruct (imageLoaded props); [|contradiction].
        destruct Hk as [[= <- _]|[]]. lia.
      * specialize (R k f Hk). lia.
    + intros k Hk. apply in_app_or in Hk as [Hk|Hk].
      * destruct (imageUpload props); [|contradiction].
        destruct Hk as [<-|[]]. lia.
      * specialize (U k Hk). lia.
    + intros c k Hc Hs. apply in_app_or in Hc as [Hc|Hc].
      * destruct (imageUpload props); [|contradiction].
        destruct Hc as [<-|[]]. injection Hs as <-. lia.
      * specialize (C c k Hc Hs). lia.
    + intros k Hk.
      assert (Q : uploadError_calls k
                    ((if imageUpload props
                      then [CallImageUpload (next_sel w) file] else []) ++ calls w)
                  = uploadError_calls k (calls w))
        by (destruct (imageUpload props); reflexivity).
      rewrite Q. apply in_app_or in Hk as [Hk|Hk].
      * destruct (imageUpload props); [|contradiction].
        destruct Hk as [<-|[]]. exact F.
      * apply P, Hk.
  - destruct (lookup sel (reads w)) as [file|] eqn:L; [|discriminate].
    intros [= <-]. apply lookup_In in L. constructor; cbn.
    + intros k f Hk. apply In_remove_key in Hk. apply (R k f Hk).
    + exact U.
    + intros c k [<-|Hc] Hs; [injection Hs as <-; apply (R _ _ L) | apply (C c k Hc Hs)].
    + exact P.
  - intros [= <-]. constructor; assumption.
  - destruct (pending sel (uploads w)) eqn:Pe; [|discriminate].
    intros [= <-]. apply pending_In in Pe. unfold upload_then.
    destruct (imageUploaded props); constructor; cbn.
    all: try (intros k Hk; apply In_settle in Hk as [Hk _]; (apply U, Hk || apply P, Hk)).
    all: try exact R.
    + intros c k [<-|Hc] Hs; [injection Hs as <-; apply U, Pe | apply (C c k Hc Hs)].
    + exact C.
  - destruct (pending sel (uploads w)) eqn:Pe; [|discriminate].
    intros [= <-]. apply pending_In in Pe. unfold upload_catch.
    destruct (imageUploadError props); constructor; cbn.
    all: try exact R.
    all: try (intros k Hk; apply In_settle in Hk as [Hk _]; apply U, Hk).
    + intros c k [<-|Hc] Hs; [injection Hs as <-; apply U, Pe | apply (C c k Hc Hs)].
    + intros k Hk. apply In_settle in Hk as [Hk N].
      destruct (Nat.eqb_spec sel k); [congruence | apply P, Hk].
    + exact C.
    + intros k Hk. apply In_settle in Hk as [Hk _]. apply P, Hk.
  - intros [= <-]. constructor; assumption.
  - destruct (lookup handle (timers w)) as [due|]; [|discriminate].
    destruct (due <=? now w)%N; [|discriminate].
    intros [= <-]. constructor; assumption.
  - destruct (lookup sel (reads w)) as [file|]; [|discriminate].
    intros [= <-]. constructor; cbn; try assumption.
    intros k f Hk. apply In_remove_key in Hk. apply (R k f Hk).
  - destruct (pending sel (uploads w)) eqn:Pe; [|discriminate].
    destruct (imageUploaded props); [|discriminate].
    intros [= <-]. apply pending_In in Pe. unfold upload_then_throws, upload_catch.
    destruct (imageUploadError props); constructor; cbn.
    all: try exact R.
    all: try (intros k Hk; apply In_settle in Hk as [Hk _]; apply U, Hk).
    + intros c k [<-|[<-|Hc]] Hs;
        [injection Hs as <-; apply U, Pe | injection Hs as <-; apply U, Pe
        | apply (C c k Hc Hs)].
    + intros k Hk. apply In_settle in Hk as [Hk N].
      destruct (Nat.eqb_spec sel k); [congruence | apply P, Hk].
    + intros c k [<-|Hc] Hs; [injection Hs as <-; apply U, Pe | apply (C c k Hc Hs)].
    + intros k Hk. apply In_settle in Hk as [Hk _]. apply P, Hk.
Qed.

Lemma run_app props evs1 : forall evs2 w,
  run props (evs1 ++ evs2) w
  = match run props evs1 w with
    | Some w' => run props evs2 w'
    | None => None
    end.
Proof.
  induction evs1 as [|ev evs1 IH]; intros evs2 w; [reflexivity|].
  cbn [app run]. destruct (step props ev w); [apply IH | reflexivity].
Qed.

(** An invariant of the steps is an invariant of the runs. *)
Lemma run_invariant props (I : World -> Prop) :
  (forall ev w w', I w -> step props ev w = Some w' -> I w') ->
  forall evs w w', I w -> run props evs w = Some w' -> I w'.
Proof.
  intros Hstep. induction evs as [|ev evs IH]; intros w w' Hw H.
  - injection H as <-. exact Hw.
  - cbn [run] in H. destruct (step props ev w) as [w1|] eqn:E; [|discriminate].
    apply (IH w1 w' (Hstep ev w w1 Hw E) H).
Qed.

Lemma wf_reachable props w : reachable props w -> wf w.
Proof.
  intros [evs H].
  apply (run_invariant props wf (fun ev w0 w1 => @wf_step props ev w0 w1)
           evs initialWorld w wf_initial H).
Qed.

Lemma reachable_invariant props (I : World -> Prop) :
  I initialWorld ->
  (forall ev w w', I w -> step props ev w = Some w' -> I w') ->
  forall w, reachable props w -> I w.
Proof.
  intros H0 Hs w [evs H]. exact (run_invariant props I Hs evs initialWorld w H0 H).
Qed.

(** *** One upload at a time *)

Lemma one_upload_step props ev w w' :
  one_upload w -> step props ev w = Some w' -> one_upload w'.
Proof.
  intros I.
  destruct ev as [files|k result|p|k resp|k error|dt|h|k|k resp thrown]; cbn [step].
  - destruct (isUploading (state w)) eqn:U; [discriminate|]. intros H.
    destruct I as [[I0 _]|(k & _ & I1)]; [|congruence].
    destruct (handleFileSelected_cases props files w w' H)
      as [[code ->] | (file & others & -> & HE & HS)].
    { left. split; [exact I0 | reflexivity]. }
    destruct (handleFileSelected_valid props file others w HE HS)
      as (w1 & E & _ & _ & Eu & Es & _).
    rewrite E in H. injection H as <-. unfold one_upload. rewrite Eu, Es, I0, U.
    destruct (imageUpload props); [right; eexists | left]; split; reflexivity.
  - destruct (lookup k (reads w)); [|discriminate]. intros [= <-]. exact I.
  - intros [= <-]. exact I.
  - destruct (pending k (uploads w)) eqn:P; [|discriminate]. intros [= <-].
    left. destruct I as [[I0 _]|(k0 & I1 & _)].
    + rewrite I0 in P. discriminate P.
    + rewrite I1 in P. cbn in P. rewrite orb_false_r in P.
      unfold upload_then. destruct (imageUploaded props); cbn; rewrite I1; cbn;
        rewrite Nat.eqb_sym, P; split; reflexivity.
  - destruct (pending k (uploads w)) eqn:P; [|discriminate]. intros [= <-].
    left. destruct I as [[I0 _]|(k0 & I1 & _)].
    + rewrite I0 in P. discriminate P.
    + rewrite I1 in P. cbn in P. rewrite orb_false_r in P.
      unfold upload_catch. destruct (imageUploadError props); cbn; rewrite I1; cbn;
        rewrite Nat.eqb_sym, P; split; reflexivity.
  - intros [= <-]. exact I.
  - destruct (lookup h (timers w)) as [d|]; [|discriminate].
    destruct (d <=? now w)%N; [|discriminate]. intros [= <-]. exact I.
  - destruct (lookup k (reads w)); [|discriminate]. intros [= <-]. exact I.
  - destruct (pending k (uploads w)) eqn:P; [|discriminate].
    destruct (imageUploaded props); [|discriminate]. intros [= <-].
    left. destruct I as [[I0 _]|(k0 & I1 & _)].
    + rewrite I0 in P. discriminate P.
    + rewrite I1 in P. cbn in P. rewrite orb_false_r in P.
      unfold upload_then_throws, upload_catch.
      destruct (imageUploadError props); cbn; rewrite I1; cbn;
        rewrite Nat.eqb_sym, P; split; reflexivity.
Qed.

Lemma one_upload_reachable props w : reachable props w -> one_upload w.
Proof.
  apply (reachable_invariant props one_upload); [left; split; reflexivity|].
  apply one_upload_step.
Qed.

End EventLoop.

(** ** Dispatch: the two callbacks of a valid selection *)

Module Dispatch.
Import JS ImageUpload Notions Validation EventLoop.

Lemma load_in_snoc sel pre ev r :
  (forall r', ev <> ReaderLoad sel r') ->
  In (ReaderLoad sel r) (pre ++ [ev]) -> In (ReaderLoad sel r) pre.
Proof.
  intros N H. apply in_app_or in H as [H|[H|[]]]; [exact H|].
  exfalso. exact (N r H).
Qed.

(** An event that is not the load of the read of [sel], and leaves what
    belongs to [sel] alone, leaves [served] alone. *)
Lemma served_frame sel file pre ev w w' :
  served sel file pre w ->
  (forall r, ev <> ReaderLoad sel r) ->
  next_sel w <= next_sel w' ->
  upload_calls sel (calls w') = upload_calls sel (calls w) ->
  loaded_calls sel (calls w') = loaded_calls sel (calls w) ->
  lookup sel (reads w') = lookup sel (reads w) ->
  served sel file (pre ++ [ev]) w'.
Proof.
  intros (Hn & Hu & Hr) N En Eu El Er. unfold served.
  split; [lia|]. split; [rewrite Eu; exact Hu|].
  unfold read_pending, read_done, read_failed. rewrite El, Er.
  destruct Hr as [(A & B & C)|[(A & r & B & C & D)|(A & B & C)]].
  - left. split; [exact A|]. split; [exact B|].
    intros r H. exact (C r (load_in_snoc sel pre ev r N H)).
  - right. left. split; [exact A|]. exists r. split; [exact B|].
    split; [apply in_or_app; left; exact C|].
    intros r' H. exact (D r' (load_in_snoc sel pre ev r' N H)).
  - right. right. split; [exact A|]. split; [exact B|].
    intros r H. exact (C r (load_in_snoc sel pre ev r N H)).
Qed.

Lemma served_step props sel file pre ev w w' :
  served sel file pre w -> step props ev w = Some w' ->
  served sel file (pre ++ [ev]) w'.
Proof.
  intros S. pose proof S as (Hn & Hu & Hr).
  destruct ev as [files|k result|p|k resp|k error|dt|handle|k|k resp thrown];
    cbn [step].
  - destruct (isUploading (state w)); [discriminate|]. intros H.
    destruct (handleFileSelected_cases props files w w' H)
      as [[code ->] | (file' & others & -> & HE & HS)].
    { apply (served_frame sel file pre _ w _ S); try reflexivity; discriminate. }
    destruct (handleFileSelected_valid props file' others w HE HS)
      as (w1 & E & Ec & Er & _ & _ & _ & _ & _ & En & _).
    rewrite E in H. injection H as <-.
    assert (F : (next_sel w =? sel) = false) by (apply Nat.eqb_neq; lia).
    apply (served_frame sel file pre _ w _ S); [discriminate|lia| | |].
    + rewrite Ec. destruct (imageUpload props); [|reflexivity].
      unfold upload_calls. cbn. rewrite F. reflexivity.
    + rewrite Ec. destruct (imageUpload props); reflexivity.
    + rewrite Er. destruct (imageLoaded props); [|reflexivity].
      cbn. rewrite F. reflexivity.
  - destruct (lookup k (reads w)) as [f'|] eqn:L; [|discriminate].
    intros [= <-]. destruct (Nat.eq_dec k sel) as [->|N].
    + split; [exact Hn|]. split; [exact Hu|]. right. left.
      destruct Hr as [(A & B & C)|[(A & _)|(A & _)]]; [|congruence|congruence].
      rewrite L in A. injection A as ->.
      split; [cbn; apply lookup_remove_same|]. exists result. split; [|split].
      * unfold loaded_calls in *. cbn. rewrite Nat.eqb_refl, B. reflexivity.
      * apply in_or_app. right. left. reflexivity.
      * intros r H. apply in_app_or in H as [H|[H|[]]]; [destruct (C r H)|].
        injection H as <-. reflexivity.
    + apply (served_frame sel file pre _ w _ S); try reflexivity.
      * intros r H. injection H as H _. exact (N H).
      * unfold loaded_calls. cbn.
        replace (k =? sel) with false by (symmetry; apply Nat.eqb_neq; exact N).
        reflexivity.
      * cbn. apply lookup_remove_other. congruence.
  - intros [= <-].
    apply (served_frame sel file pre _ w _ S); try reflexivity; discriminate.
  - destruct (pending k (uploads w)); [|discriminate]. intros [= <-].
    unfold upload_then. destruct (imageUploaded props);
      apply (served_frame sel file pre _ w _ S); try reflexivity; discriminate.
  - destruct (pending k (uploads w)); [|discriminate]. intros [= <-].
    unfold upload_catch. destruct (imageUploadError props);
      apply (served_frame sel file pre _ w _ S); try reflexivity; discriminate.
  - intros [= <-].
    apply (served_frame sel file pre _ w _ S); try reflexivity; discriminate.
  - destruct (lookup handle (timers w)) as [due|]; [|discriminate].
    destruct (due <=? now w)%N; [|discriminate]. intros [= <-].
    apply (served_frame sel file pre _ w _ S); try reflexivity; discriminate.
  - destruct (lookup k (reads w)) as [f'|] eqn:L; [|discriminate].
    intros [= <-]. destruct (Nat.eq_dec k sel) as [->|N].
    + split; [exact Hn|]. split; [exact Hu|]. right. right.
      destruct Hr as [(A & B & C)|[(A & _)|(A & _)]]; [|congruence|congruence].
      split; [cbn; apply lookup_remove_same|]. split; [exact B|].
      intros r H. apply in_app_or in H as [H|[H|[]]]; [exact (C r H) | discriminate H].
    + apply (served_frame sel file pre _ w _ S); try reflexivity; [discriminate|].
      cbn. apply lookup_remove_other. congruence.
  - destruct (pending k (uploads w)); [|discriminate].
    destruct (imageUploaded props); [|discriminate]. intros [= <-].
    unfold upload_then_throws, upload_catch. destruct (imageUploadError props);
      apply (served_frame sel file pre _ w _ S); try reflexivity; discriminate.
Qed.

Lemma served_run props sel file evs : forall pre w w',
  served sel file pre w -> run props evs w = Some w' ->
  served sel file (pre ++ evs) w'.
Proof.
  induction evs as [|ev evs IH]; intros pre w w' S H.
  - injection H as <-. rewrite app_nil_r. exact S.
  - cbn [run] in H. destruct (step props ev w) as [w1|] eqn:E; [|discriminate].
    change (ev :: evs) with ([ev] ++ evs). rewrite app_assoc.
    apply (IH (pre ++ [ev]) w1 w' (served_step props sel file pre ev w w1 S E) H).
Qed.

(** C5 (as amended): a valid selection with both callbacks supplied invokes
    [imageUpload] once, at once, and starts the read.  Whatever happens
    next, [imageUpload] has been invoked exactly once for the selection;
    [imageLoaded] has been invoked exactly once, with the data URL of the
    load, when the read has loaded, and not at all when it has not (it is
    still pending, or it has failed); the read can load while the upload is
    still pending. *)
Theorem both_callbacks_once (props : Props) (w : World) (file : File)
    (others : list File) :
  reachable props w ->
  isUploading (state w) = false ->
  hasExtension props (name file) = Some true ->
  (size file <= maxFileSize props)%Z ->
  imageLoaded props = true ->
  imageUpload props = true ->
  exists w1,
    step props (Change (Some (file :: others))) w = Some w1
    /\ upload_calls (next_sel w) (calls w1) = [file]
    /\ loaded_calls (next_sel w) (calls w1) = []
    /\ (forall evs w2,
          run props evs w1 = Some w2 ->
          upload_calls (next_sel w) (calls w2) = [file]
          /\ (forall result,
                In (ReaderLoad (next_sel w) result) evs ->
                loaded_calls (next_sel w) (calls w2)
                = [(file, reader_onload file result)])
          /\ ((forall result, ~ In (ReaderLoad (next_sel w) result) evs) ->
              loaded_calls (next_sel w) (calls w2) = []))
    /\ (forall result,
          exists w2,
            step props (ReaderLoad (next_sel w) result) w1 = Some w2
            /\ loaded_calls (next_sel w) (calls w2)
               = [(file, reader_onload file result)]
            /\ pending (next_sel w) (uploads w2) = true
            /\ isUploading (state w2) = true).
Proof.
  intros Hr Hi HE HS HL HU.
  pose proof (wf_reachable props w Hr) as [_ _ C _].
  destruct (fresh_no_calls (next_sel w) (calls w) C) as (Fl & Fu & _).
  destruct (handleFileSelected_valid props file others w HE HS)
    as (w1 & E & Ec & Er & Eu & Es & _ & _ & _ & En & _).
  rewrite HL in Er. rewrite HU in Ec, Eu, Es. cbn [app] in Ec, Er, Eu.
  assert (Qu : upload_calls (next_sel w) (calls w1) = [file]).
  { rewrite Ec. unfold upload_calls in *. cbn. rewrite Nat.eqb_refl, Fu. reflexivity. }
  assert (Ql : loaded_calls (next_sel w) (calls w1) = []).
  { rewrite Ec. exact Fl. }
  assert (Qr : lookup (next_sel w) (reads w1) = Some file).
  { rewrite Er. cbn. rewrite Nat.eqb_refl. reflexivity. }
  exists w1. split; [cbn [step]; rewrite Hi; exact E|].
  split; [exact Qu|]. split; [exact Ql|]. split.
  - intros evs w2 Hrun.
    assert (S1 : served (next_sel w) file [] w1).
    { split; [lia|]. split; [exact Qu|]. left.
      split; [exact Qr|]. split; [exact Ql|]. intros r []. }
    pose proof (served_run props (next_sel w) file evs [] w1 w2 S1 Hrun)
      as (_ & Hu2 & Hr2).
    cbn [app] in Hr2. split; [exact Hu2|].
    destruct Hr2 as [(_ & B & D)|[(_ & r & B & D & F)|(_ & B & D)]]; split.
    + intros result H. destruct (D result H).
    + intros _. exact B.
    + intros result H. rewrite (F result H). exact B.
    + intros N. destruct (N r D).
    + intros result H. destruct (D result H).
    + intros _. exact B.
  - intros result. cbn [step]. rewrite Qr. eexists. split; [reflexivity|].
    cbn. rewrite Nat.eqb_refl.
    unfold loaded_calls in Ql. rewrite Ql.
    rewrite Eu, Es. cbn. rewrite Nat.eqb_refl. repeat split.
Qed.

Lemma both_callbacks_once_witness :
  exists w1,
    step jpg_png (Change (Some [mkFile (js "Photo.PNG") 1000])) initialWorld = Some w1
    /\ upload_calls 0 (calls w1) = [mkFile (js "Photo.PNG") 1000]
    /\ loaded_calls 0 (calls w1) = [].
Proof.
  destruct (both_callbacks_once jpg_png initialWorld (mkFile (js "Photo.PNG") 1000) []
              (ex_intro _ [] eq_refl) eq_refl eq_refl
              ltac:(discriminate) eq_refl eq_refl)
    as (w1 & E & Hu & Hl & _).
  exists w1. repeat split; assumption.
Defined.

(** C5 as stated fails when the read fails: [readFile] sets no error
    handler, so after the read of [Photo.PNG] has failed and its upload has
    resolved nothing is pending for the selection, and [imageLoaded] has not
    been invoked. *)
Lemma both_callbacks_once_counterexample :
  ~ (forall (props : Props) (w : World) (file : File) (others : list File),
       reachable props w ->
       isUploading (state w) = false ->
       hasExtension props (name file) = Some true ->
       (size file <= maxFileSize props)%Z ->
       imageLoaded props = true ->
       imageUpload props = true ->
       exists w1,
         step props (Change (Some (file :: others))) w = Some w1
         /\ forall evs w2,
              run props evs w1 = Some w2 ->
              lookup (next_sel w) (reads w2) = None ->
              pending (next_sel w) (uploads w2) = false ->
              length (upload_calls (next_sel w) (calls w2)) = 1
              /\ length (loaded_calls (next_sel w) (calls w2)) = 1).
Proof.
  intros H.
  destruct (H jpg_png initialWorld (mkFile (js "Photo.PNG") 1000) []
              (ex_intro _ [] eq_refl) eq_refl eq_refl
              ltac:(discriminate) eq_refl eq_refl)
    as (w1 & E & A).
  vm_compute in E. injection E as <-.
  destruct (A [ReaderError 0; UploadResolve 0 VUndefined] _ eq_refl eq_refl eq_refl)
    as [_ B].
  discriminate B.
Qed.

End Dispatch.

(** ** The upload promise is rejected *)

Module UploadFailure.
Import JS ImageUpload Notions Invariants Validation EventLoop.

Lemma rejected_step props sel v ev w w' :
  rejected sel v w -> step props ev w = Some w' -> rejected sel v w'.
Proof.
  intros (Hn & Hp & Hc).
  destruct ev as [files|k result|p|k resp|k error|dt|handle|k|k resp thrown];
    cbn [step].
  - destruct (isUploading (state w)); [discriminate|]. intros H.
    destruct (handleFileSelected_cases props files w w' H)
      as [[code ->] | (file' & others & -> & HE & HS)].
    { exact (conj Hn (conj Hp Hc)). }
    destruct (handleFileSelected_valid props file' others w HE HS)
      as (w1 & E & Ec & _ & Eu & _ & _ & _ & _ & En & _).
    rewrite E in H. injection H as <-.
    assert (F : (sel =? next_sel w) = false) by (apply Nat.eqb_neq; lia).
    unfold rejected. rewrite Ec, Eu, En. split; [lia|].
    destruct (imageUpload props); cbn; [rewrite F|]; split; assumption.
  - destruct (lookup k (reads w)); [|discriminate].
    intros [= <-]. exact (conj Hn (conj Hp Hc)).
  - intros [= <-]. exact (conj Hn (conj Hp Hc)).
  - destruct (pending k (uploads w)) eqn:Pk; [|discriminate]. intros [= <-].
    unfold rejected, upload_then.
    destruct (imageUploaded props); cbn;
      (split; [exact Hn|]; split; [apply pending_settle_other, Hp | exact Hc]).
  - destruct (pending k (uploads w)) eqn:Pk; [|discriminate]. intros [= <-].
    assert (N : (k =? sel) = false).
    { apply Nat.eqb_neq. intros ->. congruence. }
    unfold rejected, upload_catch.
    destruct (imageUploadError props); cbn; rewrite ?N;
      (split; [exact Hn|]; split; [apply pending_settle_other, Hp | exact Hc]).
  - intros [= <-]. exact (conj Hn (conj Hp Hc)).
  - destruct (lookup handle (timers w)) as [due|]; [|discriminate].
    destruct (due <=? now w)%N; [|discriminate].
    intros [= <-]. exact (conj Hn (conj Hp Hc)).
  - destruct (lookup k (reads w)); [|discriminate].
    intros [= <-]. exact (conj Hn (conj Hp Hc)).
  - destruct (pending k (uploads w)) eqn:Pk; [|discriminate].
    destruct (imageUploaded props); [|discriminate]. intros [= <-].
    assert (N : (k =? sel) = false).
    { apply Nat.eqb_neq. intros ->. congruence. }
    unfold rejected, upload_then_throws, upload_catch.
    destruct (imageUploadError props); cbn; rewrite ?N;
      (split; [exact Hn|]; split; [apply pending_settle_other, Hp | exact Hc]).
Qed.

(** C6: when the upload promise of a selection rejects with [v],
    [isUploading], which was true, goes back to false and nothing else of
    the state changes: [hasError], [errorText] and [progress] are left as
    they were, and so are the raised error codes and the timeouts.  The
    [imageUploadError] callback is invoked with [v] itself, and no later
    event adds an invocation for that selection. *)
Theorem upload_rejection_forwarded (props : Props) (w : World) (sel : nat)
    (v : jsval) :
  reachable props w ->
  pending sel (uploads w) = true ->
  imageUploadError props = true ->
  isUploading (state w) = true
  /\ exists w2,
       step props (UploadReject sel v) w = Some w2
       /\ calls w2 = CallImageUploadError sel v :: calls w
       /\ uploadError_calls sel (calls w2) = [v]
       /\ isUploading (state w2) = false
       /\ state w2 = {| isUploading := false; hasError := hasError (state w);
                        errorText := errorText (state w);
                        progress := progress (state w) |}
       /\ hasError (state w2) = hasError (state w)
       /\ errorText (state w2) = errorText (state w)
       /\ raised (calls w2) = raised (calls w)
       /\ timers w2 = timers w
       /\ (forall evs w3,
             run props evs w2 = Some w3 -> uploadError_calls sel (calls w3) = [v]).
Proof.
  intros Hr Hp He.
  pose proof (wf_reachable props w Hr) as [_ U _ P].
  pose proof (proj1 (pending_In sel (uploads w)) Hp) as Hin.
  split.
  { destruct (one_upload_reachable props w Hr) as [[I0 _]|(k & _ & I1)];
      [rewrite I0 in Hin; contradiction | exact I1]. }
  assert (Q : uploadError_calls sel (CallImageUploadError sel v :: calls w) = [v]).
  { unfold uploadError_calls in *. cbn. rewrite Nat.eqb_refl, (P sel Hin). reflexivity. }
  eexists. split; [cbn [step]; rewrite Hp; reflexivity|].
  unfold upload_catch. rewrite He. cbn.
  split; [reflexivity|]. split; [exact Q|]. repeat (split; [reflexivity|]).
  intros evs w3 Hrun.
  refine (proj2 (proj2 (run_invariant props (rejected sel v)
                          (rejected_step props sel v) evs _ w3 _ Hrun))).
  split; [exact (U sel Hin)|]. split; [apply pending_settle | exact Q].
Qed.

Lemma upload_rejection_forwarded_witness :
  isUploading (state uploading_world) = true
  /\ exists w2,
       step jpg_png (UploadReject 0 (VString (js "network down"))) uploading_world
       = Some w2
       /\ uploadError_calls 0 (calls w2) = [VString (js "network down")]
       /\ isUploading (state w2) = false
       /\ hasError (state w2) = false.
Proof.
  destruct (upload_rejection_forwarded jpg_png uploading_world 0
              (VString (js "network down"))
              (ex_intro _ [Change (Some [mkFile (js "Photo.PNG") 1000])] eq_refl)
              eq_refl eq_refl)
    as (B & w2 & E & _ & Q & I & _ & H & _).
  split; [exact B|].
  exists w2. split; [exact E|]. split; [exact Q|]. split; [exact I | exact H].
Defined.

(** C10: the rejection handler resets [isUploading] and nothing else:
    [progress] keeps the value last reported, which is still there when the
    next upload starts; the success handler is the one that clears it. *)
Theorem rejection_keeps_progress (props : Props) (w : World) (sel : nat)
    (v : jsval) :
  pending sel (uploads w) = true ->
  (exists w2,
     step props (UploadReject sel v) w = Some w2
     /\ state w2 = {| isUploading := false; hasError := hasError (state w);
                      errorText := errorText (state w);
                      progress := progress (state w) |})
  /\ (forall resp, exists w2,
        step props (UploadResolve sel resp) w = Some w2
        /\ progress (state w2) = None /\ isUploading (state w2) = false)
  /\ (forall p file others,
        hasExtension props (name file) = Some true ->
        (size file <= maxFileSize props)%Z ->
        imageUpload props = true ->
        exists w3,
          run props [ReportProgress p; UploadReject sel v;
                     Change (Some (file :: others))] w = Some w3
          /\ isUploading (state w3) = true
          /\ progress (state w3) = Some p).
Proof.
  intros Hp. split; [|split].
  - eexists. split; [cbn [step]; rewrite Hp; reflexivity|].
    unfold upload_catch. destruct (imageUploadError props); reflexivity.
  - intros resp. eexists. split; [cbn [step]; rewrite Hp; reflexivity|].
    unfold upload_then. destruct (imageUploaded props); split; reflexivity.
  - intros p file others HE HS HU.
    cbn [run step]. cbn [handleReportProgress setState with_state uploads].
    rewrite Hp.
    set (wb := upload_catch props sel v _).
    assert (Sb : state wb = {| isUploading := false; hasError := hasError (state w);
                               errorText := errorText (state w);
                               progress := Some p |}).
    { unfold wb, upload_catch. destruct (imageUploadError props); reflexivity. }
    rewrite Sb. cbn [isUploading].
    destruct (handleFileSelected_valid props file others wb HE HS)
      as (w3 & E & _ & _ & _ & Es & _ & _ & Epr & _).
    exists w3. split; [rewrite E; reflexivity|]. rewrite Es, Epr, HU, Sb. split; reflexivity.
Qed.

Lemma rejection_keeps_progress_witness :
  exists w3,
    run jpg_png [ReportProgress 40; UploadReject 0 VUndefined;
                 Change (Some [mkFile (js "b.jpg") 7])] uploading_world = Some w3
    /\ isUploading (state w3) = true
    /\ progress (state w3) = Some 40%Z.
Proof.
  exact (proj2 (proj2 (rejection_keeps_progress jpg_png uploading_world 0
                         VUndefined eq_refl))
           40%Z (mkFile (js "b.jpg") 7) [] eq_refl ltac:(discriminate) eq_refl).
Defined.

End UploadFailure.

(** ** The error display and its timeout *)

Module ErrorDisplay.
Import JS ImageUpload Notions Validation EventLoop.

(** [handleError] is its first commit followed by the completion callback
    of line 88. *)
Lemma handleError_after_first_commit errorCode w :
  handleError errorCode w
  = setState {| set_isUploading := Some false; set_hasError := None;
                set_errorText := None; set_progress := None |}
      (handleError_first_commit errorCode w)
  /\ isUploading (state (handleError_first_commit errorCode w)) = true
  /\ isUploading (state (handleError errorCode w)) = false.
Proof. repeat split. Qed.

Lemma timer_kept_frame handle due pre ev w w' :
  timer_kept handle due pre w ->
  next_timer w <= next_timer w' ->
  (now w <= now w')%N ->
  lookup handle (timers w') = lookup handle (timers w) ->
  timer_kept handle due (pre ++ [ev]) w'.
Proof.
  intros (Hn & Hk) En Et El. split; [lia|]. rewrite El.
  destruct Hk as [Hk|(Hi & Hk & Hd)]; [left; exact Hk|].
  right. split; [apply in_or_app; left; exact Hi|]. split; [exact Hk | lia].
Qed.

Lemma timer_kept_step props handle due pre ev w w' :
  timer_kept handle due pre w ->
  step props ev w = Some w' ->
  timer_kept handle due (pre ++ [ev]) w'.
Proof.
  intros K. pose proof K as (Hn & Hk).
  destruct ev as [files|k result|p|k resp|k error|dt|h|k|k resp thrown]; cbn [step].
  - destruct (isUploading (state w)); [discriminate|]. intros H.
    destruct (handleFileSelected_cases props files w w' H)
      as [[code ->] | (file' & others & -> & HE & HS)].
    + apply (timer_kept_frame handle due pre _ w _ K); cbn; [lia|lia|].
      replace (next_timer w =? handle) with false
        by (symmetry; apply Nat.eqb_neq; lia).
      reflexivity.
    + destruct (handleFileSelected_valid props file' others w HE HS)
        as (w1 & E & _ & _ & _ & _ & _ & _ & _ & _ & Et & En & Enow).
      rewrite E in H. injection H as <-.
      apply (timer_kept_frame handle due pre _ w _ K);
        [rewrite En | rewrite Enow | rewrite Et]; reflexivity || lia.
  - destruct (lookup k (reads w)); [|discriminate]. intros [= <-].
    apply (timer_kept_frame handle due pre _ w _ K); cbn; reflexivity || lia.
  - intros [= <-].
    apply (timer_kept_frame handle due pre _ w _ K); cbn; reflexivity || lia.
  - destruct (pending k (uploads w)); [|discriminate]. intros [= <-].
    unfold upload_then. destruct (imageUploaded props);
      apply (timer_kept_frame handle due pre _ w _ K); cbn; reflexivity || lia.
  - destruct (pending k (uploads w)); [|discriminate]. intros [= <-].
    unfold upload_catch. destruct (imageUploadError props);
      apply (timer_kept_frame handle due pre _ w _ K); cbn; reflexivity || lia.
  - intros [= <-].
    apply (timer_kept_frame handle due pre _ w _ K); cbn; reflexivity || lia.
  - destruct (lookup h (timers w)) as [d|] eqn:L; [|discriminate].
    destruct (N.leb_spec d (now w)) as [Hd|Hd]; [|discriminate].
    intros [= <-]. destruct (Nat.eq_dec handle h) as [->|N].
    + split; [exact Hn|]. right. cbn.
      split; [apply in_or_app; right; left; reflexivity|].
      split; [apply lookup_remove_same|].
      destruct Hk as [Hk|(_ & _ & Hk)]; [|exact Hk].
      rewrite L in Hk. injection Hk as <-. exact Hd.
    + apply (timer_kept_frame handle due pre _ w _ K); cbn; [lia|lia|].
      apply (lookup_remove_other handle h (timers w) N).
  - destruct (lookup k (reads w)); [|discriminate]. intros [= <-].
    apply (timer_kept_frame handle due pre _ w _ K); cbn; reflexivity || lia.
  - destruct (pending k (uploads w)); [|discriminate].
    destruct (imageUploaded props); [|discriminate]. intros [= <-].
    unfold upload_then_throws, upload_catch. destruct (imageUploadError props);
      apply (timer_kept_frame handle due pre _ w _ K); cbn; reflexivity || lia.
Qed.

Lemma timer_kept_run props handle due evs : forall pre w w',
  timer_kept handle due pre w ->
  run props evs w = Some w' ->
  timer_kept handle due (pre ++ evs) w'.
Proof.
  induction evs as [|ev evs IH]; intros pre w w' Hk H.
  - injection H as <-. rewrite app_nil_r. exact Hk.
  - cbn [run] in H. destruct (step props ev w) as [w1|] eqn:E; [|discriminate].
    change (ev :: evs) with ([ev] ++ evs). rewrite app_assoc.
    apply (IH (pre ++ [ev]) w1 w' (timer_kept_step props handle due pre ev w w1 Hk E) H).
Qed.

Lemma error_shown_step props t0 ev w w' :
  error_shown_from t0 w -> step props ev w = Some w' -> error_shown_from t0 w'.
Proof.
  intros (Ht & Hs).
  destruct ev as [files|k result|p|k resp|k error|dt|h|k|k resp thrown]; cbn [step].
  - destruct (isUploading (state w)); [discriminate|]. intros H.
    destruct (handleFileSelected_cases props files w w' H)
      as [[code ->] | (file' & others & -> & HE & HS)].
    + split; [exact Ht|]. cbn. intros Hlt. split; [reflexivity|].
      intros h0 d [[= _ <-]|Hin]; [lia|].
      apply (proj2 (Hs Hlt) h0 d Hin).
    + destruct (handleFileSelected_valid props file' others w HE HS)
        as (w1 & E & _ & _ & _ & _ & Eh & _ & _ & _ & Et & _ & En).
      rewrite E in H. injection H as <-.
      unfold error_shown_from. rewrite Et, En, Eh. exact (conj Ht Hs).
  - destruct (lookup k (reads w)); [|discriminate].
    intros [= <-]. exact (conj Ht Hs).
  - intros [= <-]. exact (conj Ht Hs).
  - destruct (pending k (uploads w)); [|discriminate]. intros [= <-].
    unfold upload_then. destruct (imageUploaded props); exact (conj Ht Hs).
  - destruct (pending k (uploads w)); [|discriminate]. intros [= <-].
    unfold upload_catch. destruct (imageUploadError props); exact (conj Ht Hs).
  - intros [= <-]. split; cbn; [lia|]. intros Hlt. apply Hs. lia.
  - destruct (lookup h (timers w)) as [d|] eqn:L; [|discriminate].
    destruct (N.leb_spec d (now w)) as [Hd|Hd]; [|discriminate].
    intros [= <-]. split; cbn; [exact Ht|]. intros Hlt. exfalso.
    pose proof (proj2 (Hs Hlt) h d (lookup_In h (timers w) d L)). lia.
  - destruct (lookup k (reads w)); [|discriminate].
    intros [= <-]. exact (conj Ht Hs).
  - destruct (pending k (uploads w)); [|discriminate].
    destruct (imageUploaded props); [|discriminate]. intros [= <-].
    unfold upload_then_throws, upload_catch.
    destruct (imageUploadError props); exact (conj Ht Hs).
Qed.

Lemma timer_waits_step props handle t0 ev w w' :
  error_shown_from t0 w ->
  timer_waits handle t0 w ->
  step props ev w = Some w' ->
  timer_waits handle t0 w'.
Proof.
  intros (Ht & Hs) (Hn & Hk).
  destruct ev as [files|k result|p|k resp|k error|dt|h|k|k resp thrown]; cbn [step].
  - destruct (isUploading (state w)); [discriminate|]. intros H.
    destruct (handleFileSelected_cases props files w w' H)
      as [[code ->] | (file' & others & -> & HE & HS)].
    + unfold timer_waits. cbn.
      replace (next_timer w =? handle) with false
        by (symmetry; apply Nat.eqb_neq; lia).
      split; [lia | exact Hk].
    + destruct (handleFileSelected_valid props file' others w HE HS)
        as (w1 & E & _ & _ & _ & _ & _ & _ & _ & _ & Et & En & Enow).
      rewrite E in H. injection H as <-.
      unfold timer_waits. rewrite Et, En, Enow. exact (conj Hn Hk).
  - destruct (lookup k (reads w)); [|discriminate].
    intros [= <-]. exact (conj Hn Hk).
  - intros [= <-]. exact (conj Hn Hk).
  - destruct (pending k (uploads w)); [|discriminate]. intros [= <-].
    unfold upload_then. destruct (imageUploaded props); exact (conj Hn Hk).
  - destruct (pending k (uploads w)); [|discriminate]. intros [= <-].
    unfold upload_catch. destruct (imageUploadError props); exact (conj Hn Hk).
  - intros [= <-]. split; cbn; [exact Hn|]. intros Hlt. apply Hk. lia.
  - destruct (lookup h (timers w)) as [d|] eqn:L; [|discriminate].
    destruct (N.leb_spec d (now w)) as [Hd|Hd]; [|discriminate].
    intros [= <-]. split; cbn; [exact Hn|]. intros Hlt. exfalso.
    pose proof (proj2 (Hs Hlt) h d (lookup_In h (timers w) d L)). lia.
  - destruct (lookup k (reads w)); [|discriminate].
    intros [= <-]. exact (conj Hn Hk).
  - destruct (pending k (uploads w)); [|discriminate].
    destruct (imageUploaded props); [|discriminate]. intros [= <-].
    unfold upload_then_throws, upload_catch.
    destruct (imageUploadError props); exact (conj Hn Hk).
Qed.

Lemma window_run props handle t0 evs : forall w w',
  error_shown_from t0 w /\ timer_waits handle t0 w ->
  run props evs w = Some w' ->
  error_shown_from t0 w' /\ timer_waits handle t0 w'.
Proof.
  apply run_invariant. intros ev w w' [S T] E. split.
  - apply (error_shown_step props t0 ev w w' S E).
  - apply (timer_waits_step props handle t0 ev w w' S T E).
Qed.

(** C8 (as amended): [handleError] shows the error at once, in the first
    state React commits and in the one it ends with, and sets a timeout 5
    seconds ahead.  Whatever happens next, that timeout stays pending with
    the same due time until it runs; it cannot run before it is due, can run
    once it is, and clears [hasError] and [errorText] when it does.  When no
    timeout of an earlier error is pending, [hasError] stays true for these
    5 seconds. *)
Theorem error_shown_five_seconds (props : Props) (errorCode : Z) (w : World) :
  hasError (state (handleError_first_commit errorCode w)) = true
  /\ errorText (state (handleError_first_commit errorCode w)) = error_text errorCode
  /\ hasError (state (handleError errorCode w)) = true
  /\ errorText (state (handleError errorCode w)) = error_text errorCode
  /\ lookup (next_timer w) (timers (handleError errorCode w)) = Some (now w + 5000)%N
  /\ (forall evs w2,
        run props evs (handleError errorCode w) = Some w2 ->
        (lookup (next_timer w) (timers w2) = Some (now w + 5000)%N
         \/ (In (TimerFire (next_timer w)) evs
             /\ lookup (next_timer w) (timers w2) = None
             /\ (now w + 5000 <= now w2)%N))
        /\ (lookup (next_timer w) (timers w2) = Some (now w + 5000)%N ->
            (forall w3,
               step props (TimerFire (next_timer w)) w2 = Some w3 ->
               (now w + 5000 <= now w2)%N
               /\ hasError (state w3) = false
               /\ errorText (state w3) = [])
            /\ ((now w + 5000 <= now w2)%N ->
                exists w3, step props (TimerFire (next_timer w)) w2 = Some w3)))
  /\ ((forall h d, In (h, d) (timers w) -> (now w + 5000 <= d)%N) ->
      forall evs w2,
        run props evs (handleError errorCode w) = Some w2 ->
        (now w2 < now w + 5000)%N ->
        hasError (state w2) = true
        /\ lookup (next_timer w) (timers w2) = Some (now w + 5000)%N).
Proof.
  assert (L : lookup (next_timer w) (timers (handleError errorCode w))
              = Some (now w + 5000)%N)
    by (cbn; rewrite Nat.eqb_refl; reflexivity).
  do 4 (split; [reflexivity|]). split; [exact L|]. split.
  - intros evs w2 Hrun.
    assert (K : timer_kept (next_timer w) (now w + 5000) [] (handleError errorCode w)).
    { split; [cbn; lia | left; exact L]. }
    apply (timer_kept_run props _ _ evs [] _ w2) in K; [|exact Hrun].
    cbn [app] in K. destruct K as (_ & K). split; [exact K|].
    intros Lk. split.
    + intros w3. cbn [step]. rewrite Lk.
      destruct (N.leb_spec (now w + 5000) (now w2)) as [Hd|Hd]; [|discriminate].
      intros [= <-]. split; [exact Hd|]. split; reflexivity.
    + intros Hdue. cbn [step]. rewrite Lk.
      replace (now w + 5000 <=? now w2)%N with true
        by (symmetry; apply N.leb_le; exact Hdue).
      eexists. reflexivity.
  - intros Hpend evs w2 Hrun Hlt.
    assert (S0 : error_shown_from (now w) (handleError errorCode w)).
    { split; cbn; [lia|]. intros _. split; [reflexivity|].
      intros h d [[= _ <-]|Hin]; [lia | apply (Hpend h d Hin)]. }
    assert (T0 : timer_waits (next_timer w) (now w) (handleError errorCode w)).
    { split; [cbn; lia | intros _; exact L]. }
    destruct (window_run props (next_timer w) (now w) evs _ w2 (conj S0 T0) Hrun)
      as ((_ & S2) & (_ & T2)).
    split; [exact (proj1 (S2 Hlt)) | exact (T2 Hlt)].
Qed.

Lemma error_shown_five_seconds_witness :
  lookup 1 (timers (handleError 1 error_world)) = Some 8000%N
  /\ exists w2,
       run jpg_png [Elapse 3000; Change (Some [mkFile (js "Photo.PNG") 1000])]
           (handleError 2 initialWorld) = Some w2
       /\ hasError (state w2) = true
       /\ lookup 0 (timers w2) = Some 5000%N.
Proof.
  split.
  - exact (proj1 (proj2 (proj2 (proj2 (proj2
             (error_shown_five_seconds jpg_png 1 error_world)))))).
  - eexists. split; [reflexivity|].
    refine (proj2 (proj2 (proj2 (proj2 (proj2 (proj2
              (error_shown_five_seconds jpg_png 2 initialWorld))))))
              (fun h d H => match H with end)
              [Elapse 3000; Change (Some [mkFile (js "Photo.PNG") 1000])] _
              eq_refl _).
    reflexivity.
Defined.

(** C8 as stated fails when an earlier error's timeout is still pending:
    an error raised at 3000 ms is cleared at 5000 ms, 2 seconds later, by
    the timeout of the error raised at 0 ms. *)
Lemma error_shown_five_seconds_counterexample :
  ~ (forall (props : Props) (errorCode : Z) (w : World) (evs : list event)
            (w2 : World),
       reachable props w ->
       run props evs (handleError errorCode w) = Some w2 ->
       (now w2 < now w + 5000)%N ->
       hasError (state w2) = true).
Proof.
  intros H.
  specialize (H jpg_png 1%Z error_world [Elapse 2000; TimerFire 0]).
  specialize (H _ (ex_intro _ [Change None; Elapse 3000] eq_refl) eq_refl eq_refl).
  discriminate H.
Qed.

End ErrorDisplay.

(** ** More on validation *)

Module ValidationMore.
Import JS RegExp ImageUpload Notions Invariants CharFacts RegExpFacts HasExtension
  Validation.

Lemma lower_char_idempotent c : lower_char (lower_char c) = lower_char c.
Proof.
  apply Ascii.eqb_eq. revert c. apply ascii_forall. vm_compute. reflexivity.
Qed.

Lemma toLowerCase_idempotent s : toLowerCase (toLowerCase s) = toLowerCase s.
Proof.
  unfold toLowerCase. rewrite map_map. apply map_ext. apply lower_char_idempotent.
Qed.

(** X4: The verdict of [hasExtension] does not depend on the case of the file
    name or of the entries, whatever the entries are. *)
Theorem hasExtension_case_blind (props : Props) (fileName : jsstring) :
  hasExtension props (toLowerCase fileName) = hasExtension props fileName
  /\ hasExtension
       {| imageLoaded := imageLoaded props; imageUpload := imageUpload props;
          imageUploadError := imageUploadError props;
          imageUploaded := imageUploaded props;
          maxFileSize := maxFileSize props;
          allowedExtensions := map toLowerCase (allowedExtensions props) |}
       fileName
     = hasExtension props fileName.
Proof.
  unfold hasExtension, extension_pattern. cbn [allowedExtensions]. split.
  - rewrite toLowerCase_idempotent. reflexivity.
  - rewrite map_map.
    rewrite (map_ext (fun x => toLowerCase (toLowerCase x)) toLowerCase
               toLowerCase_idempotent).
    reflexivity.
Qed.

(** X2: With the default props a file name is accepted exactly when it ends in
    jpg, jpeg or png, in any case, and the file is then accepted when it has
    at most 5242880 bytes. *)
Theorem default_validation (file : File) (others : list File) (w : World) :
  hasExtension defaultProps (name file)
  = Some (ends_with_ci (js "jpg") (name file)
          || ends_with_ci (js "jpeg") (name file)
          || ends_with_ci (js "png") (name file))
  /\ exists w',
       handleFileSelected defaultProps (Some (file :: others)) w = Some w'
       /\ (raised (calls w') = raised (calls w)
           <-> (ends_with_ci (js "jpg") (name file)
                || ends_with_ci (js "jpeg") (name file)
                || ends_with_ci (js "png") (name file)) = true
               /\ (size file <= 5242880)%Z).
Proof.
  assert (HE : hasExtension defaultProps (name file)
               = Some (ends_with_ci (js "jpg") (name file)
                       || ends_with_ci (js "jpeg") (name file)
                       || ends_with_ci (js "png") (name file))).
  { rewrite (hasExtension_plain (js "jpg") [js "jpeg"; js "png"] defaultProps
               (name file) eq_refl eq_refl).
    cbn [existsb]. rewrite orb_false_r, orb_assoc. reflexivity. }
  split; [exact HE|].
  destruct (ends_with_ci (js "jpg") (name file)
            || ends_with_ci (js "jpeg") (name file)
            || ends_with_ci (js "png") (name file)) eqn:V.
  - destruct (Z_le_gt_dec (size file) (maxFileSize defaultProps)) as [L|G].
    + destruct (handleFileSelected_valid defaultProps file others w HE L)
        as (w' & E & C & _).
      exists w'. split; [exact E|]. rewrite C. cbn. split; [|reflexivity].
      intros _. split; [reflexivity | exact L].
    + exists (handleError TOO_BIG_ERROR_CODE w). split.
      * unfold handleFileSelected. rewrite HE, (gtb_true _ _ G). reflexivity.
      * rewrite raised_handleError. split.
        -- intros H. symmetry in H. exfalso. exact (cons_neq _ _ H).
        -- intros [_ L]. cbn in G. lia.
  - exists (handleError BAD_EXTENSION_ERROR_CODE w). split.
    + unfold handleFileSelected. rewrite HE. reflexivity.
    + rewrite raised_handleError. split.
      * intros H. symmetry in H. exfalso. exact (cons_neq _ _ H).
      * intros [H _]. discriminate H.
Qed.

Lemma endsWith_nil s : endsWith [] s = true.
Proof.
  unfold endsWith. cbn [length]. rewrite Nat.sub_0_r.
  replace (skipn (length s) s) with (@nil ascii); [reflexivity|].
  symmetry. apply skipn_all.
Qed.

(** X3: An empty entry in a plain allow-list lets every file name through. *)
Theorem empty_entry_accepts_all (props : Props) (fileName : jsstring) :
  forallb plain (allowedExtensions props) = true ->
  In [] (allowedExtensions props) ->
  hasExtension props fileName = Some true.
Proof.
  intros Hp Hin. destruct (allowedExtensions props) as [|e l] eqn:EL; [contradiction|].
  rewrite (hasExtension_plain e l props fileName EL Hp). f_equal.
  apply existsb_exists. exists []. split; [exact Hin|].
  unfold ends_with_ci. apply endsWith_nil.
Qed.

Lemma empty_entry_accepts_all_witness :
  hasExtension (all_callbacks [js "png"; []]) (js "notes.txt") = Some true.
Proof.
  exact (empty_entry_accepts_all (all_callbacks [js "png"; []]) (js "notes.txt")
           eq_refl (or_intror (or_introl eq_refl))).
Defined.

(** X1: Every selection that [handleFileSelected] answers is either rejected
    with exactly one of the codes 1, 2, 3, which is all that happens, or
    dispatched without touching the error display.  The code is 1 when there
    is no file, 2 when the first file's name fails the extension check
    whatever its size, and 3 when the name passes and the size is over the
    maximum; files after the first are not looked at. *)
Theorem selection_outcome (props : Props) (files : option (list File))
    (w w' : World) :
  handleFileSelected props files w = Some w' ->
  ((exists c,
      w' = handleError c w
      /\ calls w' = CallHandleError c :: calls w
      /\ reads w' = reads w /\ uploads w' = uploads w
      /\ progress (state w') = progress (state w)
      /\ ((c = NO_FILE_ERROR_CODE /\ (files = None \/ files = Some []))
          \/ (exists file others,
                files = Some (file :: others)
                /\ ((c = BAD_EXTENSION_ERROR_CODE
                     /\ hasExtension props (name file) = Some false)
                    \/ (c = TOO_BIG_ERROR_CODE
                        /\ hasExtension props (name file) = Some true
                        /\ (size file > maxFileSize props)%Z)))))
   \/ (exists file others,
         files = Some (file :: others)
         /\ hasExtension props (name file) = Some true
         /\ (size file <= maxFileSize props)%Z
         /\ raised (calls w') = raised (calls w)
         /\ hasError (state w') = hasError (state w)
         /\ errorText (state w') = errorText (state w)
         /\ timers w' = timers w))
  /\ handleFileSelected props (option_map (firstn 1) files) w = Some w'.
Proof.
  unfold handleFileSelected.
  destruct files as [[|file others]|].
  - intros [= <-]. split; [|reflexivity]. left. exists NO_FILE_ERROR_CODE.
    repeat (split; [reflexivity|]). left. split; [reflexivity | right; reflexivity].
  - cbn [option_map firstn].
    destruct (hasExtension props (name file)) as [[|]|] eqn:HE; [| |discriminate].
    + destruct (size file >? maxFileSize props)%Z eqn:G.
      * intros [= <-]. split; [|reflexivity]. left. exists TOO_BIG_ERROR_CODE.
        repeat (split; [reflexivity|]). right. exists file, others.
        split; [reflexivity|]. right. split; [reflexivity|]. split; [exact HE|].
        rewrite Z.gtb_ltb in G. apply Z.ltb_lt in G. lia.
      * intros H. split; [|exact H]. right. exists file, others.
        rewrite Z.gtb_ltb in G. apply Z.ltb_ge in G.
        destruct (handleFileSelected_valid props file others w HE G)
          as (w1 & E & C & _ & _ & _ & Eh & Et & _ & _ & Etm & _).
        unfold handleFileSelected in E. rewrite HE in E.
        replace (size file >? maxFileSize props)%Z with false in E
          by (symmetry; apply gtb_false; exact G).
        rewrite E in H. injection H as <-.
        split; [reflexivity|]. split; [exact HE|]. split; [exact G|].
        split; [rewrite C; destruct (imageUpload props); reflexivity|].
        split; [exact Eh|]. split; [exact Et | exact Etm].
    + intros [= <-]. split; [|reflexivity]. left. exists BAD_EXTENSION_ERROR_CODE.
      repeat (split; [reflexivity|]). right. exists file, others.
      split; [reflexivity|]. left. split; [reflexivity | exact HE].
  - intros [= <-]. split; [|reflexivity]. left. exists NO_FILE_ERROR_CODE.
    repeat (split; [reflexivity|]). left. split; [reflexivity | left; reflexivity].
Qed.

Lemma selection_outcome_witness :
  handleFileSelected jpg_png
    (option_map (firstn 1)
       (Some [mkFile (js "photo.gif") 6000000; mkFile (js "a.png") 1])) initialWorld
  = Some (handleError 2 initialWorld).
Proof.
  exact (proj2 (selection_outcome jpg_png
                  (Some [mkFile (js "photo.gif") 6000000; mkFile (js "a.png") 1])
                  initialWorld (handleError 2 initialWorld) eq_refl)).
Defined.

(** X5: Without the two callbacks a valid selection is dropped: nothing is
    invoked, no read and no upload starts, and the state stays as it is. *)
Theorem valid_selection_without_callbacks (props : Props) (file : File)
    (others : list File) (w : World) :
  no_callbacks props ->
  hasExtension props (name file) = Some true ->
  (size file <= maxFileSize props)%Z ->
  exists w',
    handleFileSelected props (Some (file :: others)) w = Some w'
    /\ state w' = state w /\ calls w' = calls w
    /\ reads w' = reads w /\ uploads w' = uploads w /\ timers w' = timers w.
Proof.
  intros [HL HU] HE HS. unfold handleFileSelected.
  rewrite HE, (gtb_false _ _ HS), HL, HU. eexists. repeat split.
Qed.

Lemma valid_selection_without_callbacks_witness :
  exists w',
    handleFileSelected defaultProps (Some [mkFile (js "a.png") 10]) initialWorld
    = Some w'
    /\ state w' = initialState /\ calls w' = [].
Proof.
  destruct (valid_selection_without_callbacks defaultProps (mkFile (js "a.png") 10)
              [] initialWorld (conj eq_refl eq_refl) eq_refl ltac:(discriminate))
    as (w' & E & S & C & _).
  exists w'. split; [exact E|]. split; [exact S | exact C].
Defined.

End ValidationMore.

(** ** More on the data URL *)

Module DataUrlMore.
Import JS ImageUpload Notions Invariants CharFacts DataUrl.

Lemma starts_with_prefix pat after : starts_with pat (pat ++ after) = true.
Proof.
  induction pat as [|c pat IH]; [reflexivity|].
  cbn [app starts_with]. unfold char_eqb. rewrite Ascii.eqb_refl. exact IH.
Qed.

(** [find_first] finds the occurrence that starts first. *)
Lemma find_first_least pat s : forall before after,
  find_first pat s = Some (before, after) ->
  forall b' a', s = b' ++ pat ++ a' -> length before <= length b'.
Proof.
  induction s as [|c s IH]; intros before after H b' a' E.
  - cbn [find_first] in H. destruct (starts_with pat []); [|discriminate H].
    injection H as <- _. cbn. lia.
  - cbn [find_first] in H. destruct (starts_with pat (c :: s)) eqn:S.
    + injection H as <- _. cbn. lia.
    + destruct (find_first pat s) as [[b a]|] eqn:F; [|discriminate H].
      injection H as <- <-. destruct b' as [|c' b'].
      * cbn [app] in E. rewrite E, starts_with_prefix in S. discriminate S.
      * cbn [app] in E. injection E as -> E. cbn [length].
        specialize (IH b a eq_refl b' a' E). lia.
Qed.

Lemma find_first_occurs pat s : occurs pat s -> find_first pat s <> None.
Proof.
  intros (b & a & E). revert s E.
  induction b as [|c b IH]; intros s E F.
  - cbn [app] in E. subst s. destruct a as [|x a], pat as [|p pat];
      cbn [find_first app] in F;
      try rewrite starts_with_prefix in F; try discriminate F.
    + rewrite app_nil_r in F. pose proof (starts_with_prefix (p :: pat) []) as Q.
      rewrite app_nil_r in Q. rewrite Q in F. discriminate F.
    + pose proof (starts_with_prefix (p :: pat) (x :: a)) as Q.
      cbn [app] in Q. rewrite Q in F. discriminate F.
  - cbn [app] in E. subst s. cbn [find_first] in F.
    destruct (starts_with pat (c :: b ++ pat ++ a)); [discriminate F|].
    destruct (find_first pat (b ++ pat ++ a)) as [[b0 a0]|] eqn:G; [discriminate F|].
    exact (IH _ eq_refl G).
Qed.

(** X6: A data URL without the marker [;base64] is handed on as it is: the
    file name is not added. *)
Theorem reader_onload_no_marker (file : File) (result : jsstring) :
  ~ occurs (js ";base64") result ->
  reader_onload file result = result.
Proof.
  intros N. unfold reader_onload, replace.
  destruct (find_first (js ";base64") result) as [[b a]|] eqn:F; [|reflexivity].
  exfalso. apply N. exists b, a. apply find_first_split, F.
Qed.

Lemma not_occurs_by_search pat s : find_first pat s = None -> ~ occurs pat s.
Proof. intros F O. exact (find_first_occurs pat s O F). Qed.

Lemma reader_onload_no_marker_witness :
  reader_onload (mkFile (js "empty.png") 0) (js "data:") = js "data:".
Proof.
  exact (reader_onload_no_marker (mkFile (js "empty.png") 0) (js "data:")
           (not_occurs_by_search (js ";base64") (js "data:") eq_refl)).
Defined.

Lemma getSubstitution_plain_prefix matched before after p t :
  forallb (fun c => negb (char_eqb c "$"%char)) p = true ->
  getSubstitution matched before after (p ++ t)
  = p ++ getSubstitution matched before after t.
Proof.
  induction p as [|c p IH]; intros H; [reflexivity|].
  cbn [forallb] in H. apply andb_true_iff in H as [Hc Hp].
  cbn [app getSubstitution]. destruct (char_eqb c "$"%char); [discriminate Hc|].
  rewrite (IH Hp). reflexivity.
Qed.

Lemma getSubstitution_two matched before after c d t :
  getSubstitution matched before after (c :: d :: t)
  = if char_eqb c "$"%char then
      if char_eqb d "$"%char
      then "$"%char :: getSubstitution matched before after t
      else if char_eqb d "&"%char
      then matched ++ getSubstitution matched before after t
      else if char_eqb d "`"%char
      then before ++ getSubstitution matched before after t
      else if char_eqb d "'"%char
      then after ++ getSubstitution matched before after t
      else c :: getSubstitution matched before after (d :: t)
    else c :: getSubstitution matched before after (d :: t).
Proof. reflexivity. Qed.

(** The text after the file name is never taken for a part of a dollar
    pattern. *)
Lemma getSubstitution_marker_suffix matched before after : forall len n,
  length n <= len ->
  getSubstitution matched before after (n ++ js ";base64")
  = getSubstitution matched before after n ++ js ";base64".
Proof.
  induction len as [|len IH]; intros n Hn.
  - destruct n; [reflexivity | cbn in Hn; lia].
  - destruct n as [|c [|d t]]; [reflexivity| |].
    + cbn [app getSubstitution]. destruct (char_eqb c "$"%char); reflexivity.
    + cbn [length] in Hn.
      change ((c :: d :: t) ++ js ";base64") with (c :: d :: (t ++ js ";base64")).
      rewrite !getSubstitution_two.
      assert (It : getSubstitution matched before after (t ++ js ";base64")
                   = getSubstitution matched before after t ++ js ";base64")
        by (apply IH; lia).
      assert (Id : getSubstitution matched before after (d :: t ++ js ";base64")
                   = getSubstitution matched before after (d :: t) ++ js ";base64")
        by (apply (IH (d :: t)); cbn [length]; lia).
      change (d :: t ++ js ";base64") with ((d :: t) ++ js ";base64") in Id.
      change (d :: t ++ js ";base64") with ((d :: t) ++ js ";base64").
      destruct (char_eqb c "$"%char).
      * destruct (char_eqb d "$"%char); [rewrite It; reflexivity|].
        destruct (char_eqb d "&"%char); [rewrite It, <- app_assoc; reflexivity|].
        destruct (char_eqb d "`"%char); [rewrite It, <- app_assoc; reflexivity|].
        destruct (char_eqb d "'"%char); [rewrite It, <- app_assoc; reflexivity|].
        rewrite Id. reflexivity.
      * rewrite Id. reflexivity.
Qed.

Lemma reader_onload_split file result before after :
  find_first (js ";base64") result = Some (before, after) ->
  reader_onload file result
  = before ++ js ";name="
    ++ getSubstitution (js ";base64") before after (name file)
    ++ js ";base64" ++ after.
Proof.
  intros F. unfold reader_onload, replace. rewrite F. f_equal.
  rewrite (getSubstitution_plain_prefix _ _ _ (js ";name=") _ eq_refl).
  rewrite (getSubstitution_marker_suffix _ _ _ (length (name file)) (name file)
             (Nat.le_refl _)).
  rewrite <- !app_assoc. reflexivity.
Qed.

(** X7: Whatever the file name is, the data URL keeps what stands before the
    first [;base64] and what stands after it, and what is put in between
    starts with [;name=] and ends with [;base64]. *)
Theorem reader_onload_keeps_payload (file : File) (result : jsstring) :
  occurs (js ";base64") result ->
  exists before after inserted,
    result = before ++ js ";base64" ++ after
    /\ (forall b' a', result = b' ++ js ";base64" ++ a' -> length before <= length b')
    /\ reader_onload file result
       = before ++ js ";name=" ++ inserted ++ js ";base64" ++ after.
Proof.
  intros O. pose proof (find_first_occurs _ _ O) as F.
  destruct (find_first (js ";base64") result) as [[b a]|] eqn:E; [|congruence].
  exists b, a, (getSubstitution (js ";base64") b a (name file)).
  split; [apply find_first_split, E|]. split.
  - apply (find_first_least _ _ b a E).
  - apply reader_onload_split, E.
Qed.

Lemma reader_onload_keeps_payload_witness :
  exists before after inserted,
    reader_onload (mkFile (js "a$&b.png") 3) (js "data:image/png;base64,AAA")
    = before ++ js ";name=" ++ inserted ++ js ";base64" ++ after.
Proof.
  destruct (reader_onload_keeps_payload (mkFile (js "a$&b.png") 3)
              (js "data:image/png;base64,AAA")
              (ex_intro _ (js "data:image/png") (ex_intro _ (js ",AAA") eq_refl)))
    as (b & a & i & _ & _ & E).
  exists b, a, i. exact E.
Defined.

(** X8: For a file name without a dollar sign the first [;base64] of the data
    URL, and only the first, becomes [;name=<file name>;base64]. *)
Theorem reader_onload_adds_name (file : File) (result : jsstring) :
  forallb (fun c => negb (char_eqb c "$"%char)) (name file) = true ->
  occurs (js ";base64") result ->
  exists before after,
    result = before ++ js ";base64" ++ after
    /\ (forall b' a', result = b' ++ js ";base64" ++ a' -> length before <= length b')
    /\ reader_onload file result
       = before ++ js ";name=" ++ name file ++ js ";base64" ++ after.
Proof.
  intros Hn O. pose proof (find_first_occurs _ _ O) as F.
  destruct (find_first (js ";base64") result) as [[b a]|] eqn:E; [|congruence].
  exists b, a. split; [apply find_first_split, E|]. split.
  - apply (find_first_least _ _ b a E).
  - rewrite (reader_onload_split file result b a E).
    rewrite (getSubstitution_no_dollar _ _ _ _ Hn). reflexivity.
Qed.

Lemma reader_onload_adds_name_witness :
  exists before after,
    reader_onload (mkFile (js "cat.png") 3) (js "data:image/png;base64,AAA")
    = before ++ js ";name=" ++ js "cat.png" ++ js ";base64" ++ after.
Proof.
  destruct (reader_onload_adds_name (mkFile (js "cat.png") 3)
              (js "data:image/png;base64,AAA") eq_refl
              (ex_intro _ (js "data:image/png") (ex_intro _ (js ",AAA") eq_refl)))
    as (b & a & _ & _ & E).
  exists b, a. exact E.
Defined.

End DataUrlMore.

(** ** Invariants of the event loop *)

Module LoopInvariants.
Import JS ImageUpload Notions Invariants View Validation EventLoop.

(** The code of a rejected selection is one of the three validation codes. *)
Lemma handleFileSelected_codes props files w w' :
  handleFileSelected props files w = Some w' ->
  (exists c, validation_code c /\ w' = handleError c w)
  \/ (exists file others,
        files = Some (file :: others)
        /\ hasExtension props (name file) = Some true
        /\ (size file <= maxFileSize props)%Z).
Proof.
  unfold handleFileSelected, validation_code.
  destruct files as [[|file others]|];
    try (intros [= <-]; left; eexists; split; [|reflexivity]; tauto).
  destruct (hasExtension props (name file)) as [[|]|] eqn:HE; try discriminate;
    try (intros [= <-]; left; eexists; split; [|reflexivity]; tauto).
  destruct (size file >? maxFileSize props)%Z eqn:G;
    try (intros [= <-]; left; eexists; split; [|reflexivity]; tauto).
  intros _. right. exists file, others.
  rewrite Z.gtb_ltb in G. apply Z.ltb_ge in G. repeat split; assumption.
Qed.

(** A selection that ends in [handleError] was made with the file input
    rendered, and its code is one of the three. *)
Lemma rejected_selection props files c w :
  step props (Change files) w = Some (handleError c w) ->
  isUploading (state w) = false /\ validation_code c.
Proof.
  cbn [step]. destruct (isUploading (state w)); [discriminate|]. intros H.
  split; [reflexivity|].
  destruct (handleFileSelected_codes props files w _ H)
    as [(c' & Hc & E) | (file & others & -> & HE & HS)].
  - apply (f_equal (fun x => raised (calls x))) in E.
    rewrite !raised_handleError in E. injection E as ->. exact Hc.
  - destruct (handleFileSelected_valid props file others w HE HS)
      as (w1 & E & Ec & _).
    rewrite E in H. injection H as H. apply (f_equal (fun x => raised (calls x))) in H.
    rewrite Ec, raised_handleError in H.
    replace (raised ((if imageUpload props
                      then [CallImageUpload (next_sel w) file] else []) ++ calls w))
      with (raised (calls w)) in H by (destruct (imageUpload props); reflexivity).
    destruct (cons_neq c (raised (calls w)) H).
Qed.

(** *** One upload at a time *)

(** X9: In every world React commits at most one upload promise is
    pending, and [isUploading] is true while one is: the file input is not
    rendered then, so no second upload starts before the first has settled.
    [isUploading] is true without a pending upload only in the first commit
    of [handleError] (line 88), never between two events. *)
Theorem one_upload_at_a_time (props : Props) (w : World) :
  committed props w ->
  length (uploads w) <= 1
  /\ (uploads w <> [] -> isUploading (state w) = true)
  /\ (isUploading (state w) = true -> uploads w = [] -> first_commit_of props w)
  /\ (reachable props w -> (isUploading (state w) = true <-> uploads w <> [])).
Proof.
  assert (A : forall w0, reachable props w0 ->
            length (uploads w0) <= 1
            /\ (isUploading (state w0) = true <-> uploads w0 <> [])).
  { intros w0 R.
    destruct (one_upload_reachable props w0 R) as [[I0 I1]|(k & I0 & I1)];
      rewrite I0, I1; cbn; split; try lia; split; congruence. }
  intros [R|F].
  - destruct (A w R) as [L I]. split; [exact L|]. split; [apply I|].
    split; [|intros _; exact I].
    intros H E. apply I in H. contradiction.
  - pose proof F as (w0 & files & c & R & S & ->).
    destruct (rejected_selection props files c w0 S) as [U _].
    destruct (A w0 R) as [L I].
    assert (E : uploads w0 = []).
    { destruct (uploads w0) as [|k l] eqn:Eu; [reflexivity|].
      rewrite (proj2 I) in U; [discriminate U | discriminate]. }
    cbn. rewrite E. cbn. split; [lia|]. split; [intros N; contradiction|].
    split; [intros _ _; exact F|].
    intros R'. destruct (A _ R') as [_ I']. cbn in I'. rewrite E in I'.
    split; [intros _; apply (proj1 I'); reflexivity | reflexivity].
Qed.

Lemma one_upload_at_a_time_witness :
  length (uploads (handleError_first_commit 1 initialWorld)) <= 1
  /\ first_commit_of jpg_png (handleError_first_commit 1 initialWorld).
Proof.
  pose proof (one_upload_at_a_time jpg_png (handleError_first_commit 1 initialWorld)
                (or_intror (ex_intro _ initialWorld (ex_intro _ None (ex_intro _ 1%Z
                   (conj (ex_intro _ [] eq_refl) (conj eq_refl eq_refl)))))))
    as (L & _ & F & _).
  split; [exact L | exact (F eq_refl eq_refl)].
Defined.

(** *** Only supplied callbacks are invoked *)

Lemma only_supplied_step props ev w w' :
  only_supplied props w -> step props ev w = Some w' -> only_supplied props w'.
Proof.
  intros (C & R & U).
  destruct ev as [files|k result|p|k resp|k error|dt|h|k|k resp thrown]; cbn [step].
  - destruct (isUploading (state w)); [discriminate|]. intros H.
    destruct (handleFileSelected_cases props files w w' H)
      as [[code ->] | (file & others & -> & HE & HS)].
    { split; [|split; assumption]. cbn. constructor; [exact I | exact C]. }
    destruct (handleFileSelected_valid props file others w HE HS)
      as (w1 & E & Ec & Er & Eu & _).
    rewrite E in H. injection H as <-. unfold only_supplied. rewrite Ec, Er, Eu.
    destruct (imageLoaded props) eqn:HL, (imageUpload props) eqn:HU; cbn;
      (split; [first [exact C | constructor; [exact HU | exact C]]|]);
      (split; [first [exact R | intros _; reflexivity]
              | first [exact U | intros _; reflexivity]]).
  - destruct (lookup k (reads w)) as [f|] eqn:L; [|discriminate]. intros [= <-].
    assert (Hl : imageLoaded props = true).
    { apply R. intros N. rewrite N in L. discriminate L. }
    split; [|split].
    + cbn. constructor; [exact Hl | exact C].
    + intros _. exact Hl.
    + exact U.
  - intros [= <-]. split; [exact C | split; assumption].
  - destruct (pending k (uploads w)) eqn:P; [|discriminate]. intros [= <-].
    assert (Hu : imageUpload props = true).
    { apply U. intros N. rewrite N in P. discriminate P. }
    unfold upload_then. destruct (imageUploaded props) eqn:Hd; cbn;
      (split; [|split; [exact R | intros _; exact Hu]]); [|exact C].
    constructor; [exact Hd | exact C].
  - destruct (pending k (uploads w)) eqn:P; [|discriminate]. intros [= <-].
    assert (Hu : imageUpload props = true).
    { apply U. intros N. rewrite N in P. discriminate P. }
    unfold upload_catch. destruct (imageUploadError props) eqn:Hd; cbn;
      (split; [|split; [exact R | intros _; exact Hu]]); [|exact C].
    constructor; [exact Hd | exact C].
  - intros [= <-]. split; [exact C | split; assumption].
  - destruct (lookup h (timers w)) as [d|]; [|discriminate].
    destruct (d <=? now w)%N; [|discriminate]. intros [= <-].
    split; [exact C | split; assumption].
  - destruct (lookup k (reads w)) as [f|] eqn:L; [|discriminate]. intros [= <-].
    split; [exact C|]. split; [|exact U].
    intros _. apply R. intros N. rewrite N in L. discriminate L.
  - destruct (pending k (uploads w)) eqn:P; [|discriminate].
    destruct (imageUploaded props) eqn:Hd; [|discriminate]. intros [= <-].
    assert (Hu : imageUpload props = true).
    { apply U. intros N. rewrite N in P. discriminate P. }
    unfold upload_then_throws, upload_catch.
    destruct (imageUploadError props) eqn:He; cbn;
      (split; [|split; [exact R | intros _; exact Hu]]).
    + constructor; [exact He|]. constructor; [exact Hd | exact C].
    + constructor; [exact Hd | exact C].
Qed.

(** X10: Whatever happens, a callback that the props leave out is never
    invoked, and no read or upload is started for it. *)
Theorem absent_callback_never_invoked (props : Props) (w : World) :
  reachable props w ->
  (forall c, In c (calls w) -> supplied props c)
  /\ (imageLoaded props = false -> reads w = [])
  /\ (imageUpload props = false -> uploads w = []).
Proof.
  intros R.
  assert (I : only_supplied props w).
  { apply (reachable_invariant props (only_supplied props)); [| |exact R].
    - split; [constructor|]. split; intros N; contradiction N; reflexivity.
    - apply only_supplied_step. }
  destruct I as (C & Rd & U). split; [|split].
  - apply Forall_forall, C.
  - intros H. destruct (reads w); [reflexivity|].
    rewrite Rd in H; [discriminate H | discriminate].
  - intros H. destruct (uploads w); [reflexivity|].
    rewrite U in H; [discriminate H | discriminate].
Qed.

Lemma absent_callback_never_invoked_witness :
  supplied jpg_png (CallImageUpload 0 (mkFile (js "Photo.PNG") 1000)).
Proof.
  exact (proj1 (absent_callback_never_invoked jpg_png uploading_world
                  (ex_intro _ [Change (Some [mkFile (js "Photo.PNG") 1000])] eq_refl))
           (CallImageUpload 0 (mkFile (js "Photo.PNG") 1000)) (or_introl eq_refl)).
Defined.

(** X11: Without an upload callback no upload is ever pending, and
    [isUploading] is true only in the first commit of [handleError]:
    between two events it is false, the button is enabled and the file input
    is rendered. *)
Theorem no_upload_without_callback (props : Props) (w : World) :
  committed props w ->
  imageUpload props = false ->
  uploads w = []
  /\ (isUploading (state w) = true -> first_commit_of props w)
  /\ (reachable props w ->
      isUploading (state w) = false
      /\ disabled (render (state w)) = false
      /\ file_input (render (state w)) = true).
Proof.
  assert (A : forall w0, reachable props w0 -> imageUpload props = false ->
            uploads w0 = [] /\ isUploading (state w0) = false).
  { intros w0 R H.
    assert (I : only_supplied props w0).
    { apply (reachable_invariant props (only_supplied props)); [| |exact R].
      - split; [constructor|]. split; intros N; contradiction N; reflexivity.
      - apply only_supplied_step. }
    destruct I as (_ & _ & U).
    destruct (one_upload_reachable props w0 R) as [[I0 I1]|(k & I0 & _)].
    - split; assumption.
    - rewrite U in H; [discriminate H | rewrite I0; discriminate]. }
  intros [R|F] H.
  - destruct (A w R H) as [E I]. split; [exact E|].
    split; [intros T; congruence|].
    intros _. cbn. rewrite I. repeat split.
  - pose proof F as (w0 & files & c & R & S & ->).
    destruct (A w0 R H) as [E I]. cbn. split; [exact E|].
    split; [intros _; exact F|].
    intros R'. destruct (A _ R' H) as [_ I']. cbn in I'. discriminate I'.
Qed.

Lemma no_upload_without_callback_witness :
  exists w,
    run defaultProps [Change (Some [mkFile (js "a.png") 10])] initialWorld = Some w
    /\ uploads w = [] /\ isUploading (state w) = false.
Proof.
  eexists. split; [reflexivity|].
  pose proof (no_upload_without_callback defaultProps _
                (or_introl (ex_intro _ [Change (Some [mkFile (js "a.png") 10])]
                              eq_refl)) eq_refl) as (E & _ & I).
  split; [exact E|].
  exact (proj1 (I (ex_intro _ [Change (Some [mkFile (js "a.png") 10])] eq_refl))).
Defined.

End LoopInvariants.

(** ** The error display in every reachable world *)

Module ErrorInvariants.
Import JS ImageUpload Notions Invariants View Validation EventLoop LoopInvariants.

Lemma error_consistent_handleError c w :
  validation_code c -> error_consistent w -> error_consistent (handleError c w).
Proof.
  intros Hc [F _]. split.
  - rewrite raised_handleError. constructor; assumption.
  - right. split; [reflexivity|]. exists c. split; [exact Hc | reflexivity].
Qed.

Lemma error_consistent_step props ev w w' :
  error_consistent w -> step props ev w = Some w' -> error_consistent w'.
Proof.
  intros I.
  destruct ev as [files|k result|p|k resp|k error|dt|h|k|k resp thrown]; cbn [step].
  - destruct (isUploading (state w)); [discriminate|]. intros H.
    destruct (handleFileSelected_codes props files w w' H)
      as [(c & Hc & ->) | (file & others & -> & HE & HS)].
    { apply error_consistent_handleError; assumption. }
    destruct (handleFileSelected_valid props file others w HE HS)
      as (w1 & E & Ec & _ & _ & _ & Eh & Et & _).
    rewrite E in H. injection H as <-. unfold error_consistent.
    rewrite Ec, Eh, Et.
    replace (raised ((if imageUpload props
                      then [CallImageUpload (next_sel w) file] else []) ++ calls w))
      with (raised (calls w)) by (destruct (imageUpload props); reflexivity).
    exact I.
  - destruct (lookup k (reads w)); [|discriminate]. intros [= <-]. exact I.
  - intros [= <-]. exact I.
  - destruct (pending k (uploads w)); [|discriminate]. intros [= <-].
    unfold upload_then. destruct (imageUploaded props); exact I.
  - destruct (pending k (uploads w)); [|discriminate]. intros [= <-].
    unfold upload_catch. destruct (imageUploadError props); exact I.
  - intros [= <-]. exact I.
  - destruct (lookup h (timers w)) as [d|]; [|discriminate].
    destruct (d <=? now w)%N; [|discriminate]. intros [= <-].
    destruct I as [F _]. split; [exact F|]. left. split; reflexivity.
  - destruct (lookup k (reads w)); [|discriminate]. intros [= <-]. exact I.
  - destruct (pending k (uploads w)); [|discriminate].
    destruct (imageUploaded props); [|discriminate]. intros [= <-].
    unfold upload_then_throws, upload_catch.
    destruct (imageUploadError props); exact I.
Qed.

(** X12: The component only ever raises the codes 1, 2 and 3: the text on
    display is empty or one of their three texts, never "Error while
    uploading" or "Unknown error", and it is empty exactly when [hasError]
    is false. *)
Theorem error_display_consistent (props : Props) (w : World) :
  reachable props w ->
  (forall c, In c (raised (calls w)) -> c = 1 \/ c = 2 \/ c = 3)%Z
  /\ In (errorText (state w))
        [[]; js "No file selected"; js "Bad file type"; js "Too big"]
  /\ (hasError (state w) = false <-> errorText (state w) = []).
Proof.
  intros R.
  assert (I : error_consistent w).
  { apply (reachable_invariant props error_consistent); [| |exact R].
    - split; [constructor | left; split; reflexivity].
    - apply error_consistent_step. }
  destruct I as [F S]. split; [|split].
  - intros c Hc. rewrite Forall_forall in F. exact (F c Hc).
  - destruct S as [[S0 S1]|(S0 & c & Hc & S1)]; rewrite S1; [cbn; tauto|].
    destruct Hc as [Hc|[Hc|Hc]]; rewrite Hc; cbn; tauto.
  - destruct S as [[S0 S1]|(S0 & c & Hc & S1)]; rewrite S0, S1;
      [split; reflexivity|].
    destruct Hc as [Hc|[Hc|Hc]]; rewrite Hc; split; discriminate.
Qed.

Lemma error_display_consistent_witness :
  In (errorText (state error_world))
     [[]; js "No file selected"; js "Bad file type"; js "Too big"].
Proof.
  exact (proj1 (proj2 (error_display_consistent jpg_png error_world
                         (ex_intro _ [Change None; Elapse 3000] eq_refl)))).
Defined.

(** *** Timeouts *)

Lemma NoDup_remove_key {A} k (l : list (nat * A)) :
  NoDup (map fst l) -> NoDup (map fst (remove_key k l)).
Proof.
  induction l as [|[k0 v0] l IH]; intros H; [constructor|].
  cbn [map fst] in H. apply NoDup_cons_iff in H as [H1 H2].
  unfold remove_key in *. cbn [filter fst].
  destruct (negb (k0 =? k)); [|apply IH, H2].
  cbn [map fst]. constructor; [|apply IH, H2].
  intros Hin. apply H1. apply in_map_iff in Hin as (p & E & Hp).
  apply filter_In in Hp as [Hp _]. apply in_map_iff. exists p. tauto.
Qed.

Lemma In_lookup {A} k (v : A) (l : list (nat * A)) :
  NoDup (map fst l) -> In (k, v) l -> lookup k l = Some v.
Proof.
  induction l as [|[k0 v0] l IH]; intros H Hin; [contradiction|].
  cbn [map fst] in H. apply NoDup_cons_iff in H as [H1 H2].
  cbn [lookup]. destruct Hin as [[= -> ->]|Hin].
  - rewrite Nat.eqb_refl. reflexivity.
  - destruct (Nat.eqb_spec k0 k) as [->|N]; [|apply IH; assumption].
    exfalso. apply H1. apply in_map_iff. exists (k, v). split; [reflexivity | exact Hin].
Qed.

Lemma timeouts_sound_step props ev w w' :
  timeouts_sound w -> step props ev w = Some w' -> timeouts_sound w'.
Proof.
  intros I. pose proof I as (B & D & L & S).
  destruct ev as [files|k result|p|k resp|k error|dt|h|k|k resp thrown]; cbn [step].
  - destruct (isUploading (state w)); [discriminate|]. intros H.
    destruct (handleFileSelected_cases props files w w' H)
      as [[code ->] | (file & others & -> & HE & HS)].
    + split; [|split; [|split]]; cbn.
      * intros h d [[= <- <-]|Hin]; [split; lia|].
        destruct (B h d Hin). split; lia.
      * constructor; [|exact D]. intros Hin.
        apply in_map_iff in Hin as ([h d] & E & Hin). cbn in E. subst h.
        destruct (B _ _ Hin). lia.
      * unfold raised in L. lia.
      * intros _. discriminate.
    + destruct (handleFileSelected_valid props file others w HE HS)
        as (w1 & E & Ec & _ & _ & _ & Eh & _ & _ & _ & Et & En & Enow).
      rewrite E in H. injection H as <-. unfold timeouts_sound.
      rewrite Ec, Eh, Et, En, Enow.
      replace (raised ((if imageUpload props
                        then [CallImageUpload (next_sel w) file] else []) ++ calls w))
        with (raised (calls w)) by (destruct (imageUpload props); reflexivity).
      exact I.
  - destruct (lookup k (reads w)); [|discriminate]. intros [= <-]. exact I.
  - intros [= <-]. exact I.
  - destruct (pending k (uploads w)); [|discriminate]. intros [= <-].
    unfold upload_then. destruct (imageUploaded props); exact I.
  - destruct (pending k (uploads w)); [|discriminate]. intros [= <-].
    unfold upload_catch. destruct (imageUploadError props); exact I.
  - intros [= <-]. split; [|split; [|split]]; cbn; try assumption.
    intros h d Hin. destruct (B h d Hin). split; lia.
  - destruct (lookup h (timers w)) as [d|]; [|discriminate].
    destruct (d <=? now w)%N; [|discriminate]. intros [= <-].
    split; [|split; [|split]]; cbn.
    + intros h0 d0 Hin. apply In_remove_key in Hin. apply (B h0 d0 Hin).
    + apply NoDup_remove_key, D.
    + change (length (remove_key h (timers w)) <= length (raised (calls w))).
      unfold remove_key. pose proof (filter_length_le
        (fun p : nat * N => negb (fst p =? h)) (timers w)). lia.
    + discriminate.
  - destruct (lookup k (reads w)); [|discriminate]. intros [= <-]. exact I.
  - destruct (pending k (uploads w)); [|discriminate].
    destruct (imageUploaded props); [|discriminate]. intros [= <-].
    unfold upload_then_throws, upload_catch.
    destruct (imageUploadError props); exact I.
Qed.

(** X13: An error on display is never stuck: a timeout is pending for it that
    is due within 5 seconds, and when it runs the error is gone.  No timeout
    is pending that no error has set. *)
Theorem error_can_be_cleared (props : Props) (w : World) :
  reachable props w ->
  length (timers w) <= length (raised (calls w))
  /\ (hasError (state w) = true ->
      exists h w',
        run props [Elapse 5000; TimerFire h] w = Some w'
        /\ hasError (state w') = false
        /\ errorText (state w') = []).
Proof.
  intros R.
  assert (I : timeouts_sound w).
  { apply (reachable_invariant props timeouts_sound); [| |exact R].
    - split; [intros h d []|]. split; [constructor|]. split; [cbn; lia | discriminate].
    - apply timeouts_sound_step. }
  destruct I as (B & D & L & S). split; [exact L|].
  intros H. specialize (S H). destruct (timers w) as [|[h d] l] eqn:T; [congruence|].
  exists h. cbn [run step with_now timers now]. rewrite T.
  rewrite (In_lookup h d ((h, d) :: l) D (or_introl eq_refl)).
  destruct (B h d (or_introl eq_refl)) as [_ Hd].
  replace (d <=? now w + 5000)%N with true by (symmetry; apply N.leb_le; exact Hd).
  eexists. split; [reflexivity|]. split; reflexivity.
Qed.

Lemma error_can_be_cleared_witness :
  exists h w',
    run jpg_png [Elapse 5000; TimerFire h] error_world = Some w'
    /\ hasError (state w') = false
    /\ errorText (state w') = [].
Proof.
  exact (proj2 (error_can_be_cleared jpg_png error_world
                  (ex_intro _ [Change None; Elapse 3000] eq_refl)) eq_refl).
Defined.

(** *** What the button shows *)

(** X14: In every world React commits the view is in one of four states.
    The progress wheel is shown, with the button disabled and no file
    input, while an upload is pending, and for one render in the first
    commit of [handleError], with no upload pending.  Otherwise the file
    input is there and the button is enabled; it shows one of the three
    validation texts in the secondary colour while an error's timeout is
    pending, or else the button content in the primary colour. *)
Theorem view_states (props : Props) (w : World) :
  committed props w ->
  match button_children (render (state w)) with
  | CircularProgress value =>
      value = progress (state w)
      /\ disabled (render (state w)) = true
      /\ file_input (render (state w)) = false
      /\ ((exists k, uploads w = [k])
          \/ (uploads w = []
              /\ first_commit_of props w
              /\ hasError (state w) = true
              /\ In (errorText (state w))
                    [js "No file selected"; js "Bad file type"; js "Too big"]))
  | ErrorMessage text =>
      uploads w = []
      /\ In text [js "No file selected"; js "Bad file type"; js "Too big"]
      /\ timers w <> []
      /\ button_color (render (state w)) = Secondary
      /\ disabled (render (state w)) = false
      /\ file_input (render (state w)) = true
  | ButtonContent =>
      uploads w = []
      /\ errorText (state w) = []
      /\ button_color (render (state w)) = Primary
      /\ disabled (render (state w)) = false
      /\ file_input (render (state w)) = true
  end.
Proof.
  intros [R|F].
  - assert (I : error_consistent w /\ timeouts_sound w).
    { apply (reachable_invariant props
               (fun w => error_consistent w /\ timeouts_sound w)); [| |exact R].
      - split.
        + split; [constructor | left; split; reflexivity].
        + split; [intros h d []|]. split; [constructor|].
          split; [cbn; lia | discriminate].
      - intros ev w0 w1 (B & C) E. split.
        + apply (error_consistent_step props ev w0 w1 B E).
        + apply (timeouts_sound_step props ev w0 w1 C E). }
    pose proof (one_upload_reachable props w R) as U.
    destruct I as ((_ & E) & (_ & _ & _ & T)).
    unfold render, renderChildren. cbn.
    destruct U as [[U0 U1]|(k & U0 & U1)]; rewrite U1.
    + destruct E as [[E0 E1]|(E0 & c & Hc & E1)]; rewrite E0.
      * repeat split; assumption.
      * split; [exact U0|]. split.
        -- rewrite E1. destruct Hc as [Hc|[Hc|Hc]]; rewrite Hc; cbn; tauto.
        -- split; [exact (T E0)|]. repeat split.
    + repeat (split; [reflexivity|]). left. exists k. exact U0.
  - pose proof F as (w0 & files & c & R & S & ->).
    destruct (rejected_selection props files c w0 S) as [U Hc].
    assert (E : uploads w0 = []).
    { destruct (one_upload_reachable props w0 R) as [[I0 _]|(k & _ & I1)];
        [exact I0 | congruence]. }
    cbn. repeat (split; [reflexivity|]). right.
    split; [exact E|]. split; [exact F|]. split; [reflexivity|].
    destruct Hc as [Hc|[Hc|Hc]]; rewrite Hc; cbn; tauto.
Qed.

Lemma view_states_witness :
  button_children (render (state uploading_world)) = CircularProgress None
  /\ ((exists k, uploads uploading_world = [k])
      \/ (uploads uploading_world = []
          /\ first_commit_of jpg_png uploading_world
          /\ hasError (state uploading_world) = true
          /\ In (errorText (state uploading_world))
                [js "No file selected"; js "Bad file type"; js "Too big"])).
Proof.
  split; [reflexivity|].
  exact (proj2 (proj2 (proj2 (view_states jpg_png uploading_world
                  (or_introl (ex_intro _ [Change (Some [mkFile (js "Photo.PNG") 1000])]
                                eq_refl)))))).
Defined.

End ErrorInvariants.

(** ** The upload promise is resolved *)

Module UploadSuccess.
Import JS ImageUpload Notions Invariants Validation EventLoop LoopInvariants.

Lemma fresh_not_uploaded n cs :
  (forall c k, In c cs -> sel_of c = Some k -> k < n) -> uploaded_calls n cs = [].
Proof.
  induction cs as [|c cs IH]; intros H; [reflexivity|].
  unfold uploaded_calls in *. cbn [flat_map].
  rewrite IH by (intros c' k Hc; apply H; right; exact Hc).
  destruct c as [k f d|k f|k v|k v|code]; try reflexivity.
  replace (k =? n) with false; [reflexivity|].
  symmetry. apply Nat.eqb_neq.
  specialize (H (CallImageUploaded k v) k (or_introl eq_refl) eq_refl). lia.
Qed.

Lemma unsettled_step props ev w w' :
  wf w -> unsettled w -> step props ev w = Some w' -> unsettled w'.
Proof.
  intros [_ _ C _] I.
  destruct ev as [files|k result|p|k resp|k error|dt|h|k|k resp thrown]; cbn [step].
  - destruct (isUploading (state w)); [discriminate|]. intros H.
    destruct (handleFileSelected_cases props files w w' H)
      as [[code ->] | (file & others & -> & HE & HS)].
    { exact I. }
    destruct (handleFileSelected_valid props file others w HE HS)
      as (w1 & E & Ec & _ & Eu & _).
    rewrite E in H. injection H as <-. unfold unsettled. rewrite Ec, Eu.
    intros k Hk.
    replace (uploaded_calls k ((if imageUpload props
                                then [CallImageUpload (next_sel w) file] else [])
                               ++ calls w))
      with (uploaded_calls k (calls w)) by (destruct (imageUpload props); reflexivity).
    apply in_app_or in Hk as [Hk|Hk]; [|apply I, Hk].
    destruct (imageUpload props); [|contradiction].
    destruct Hk as [<-|[]]. apply fresh_not_uploaded, C.
  - destruct (lookup k (reads w)); [|discriminate]. intros [= <-]. exact I.
  - intros [= <-]. exact I.
  - destruct (pending k (uploads w)); [|discriminate]. intros [= <-].
    unfold unsettled, upload_then. destruct (imageUploaded props); cbn;
      intros k0 Hk; apply In_settle in Hk as [Hk N]; [|apply I, Hk].
    destruct (Nat.eqb_spec k k0); [congruence | apply I, Hk].
  - destruct (pending k (uploads w)); [|discriminate]. intros [= <-].
    unfold unsettled, upload_catch. destruct (imageUploadError props); cbn;
      intros k0 Hk; apply In_settle in Hk as [Hk N]; apply I, Hk.
  - intros [= <-]. exact I.
  - destruct (lookup h (timers w)) as [d|]; [|discriminate].
    destruct (d <=? now w)%N; [|discriminate]. intros [= <-]. exact I.
  - destruct (lookup k (reads w)); [|discriminate]. intros [= <-]. exact I.
  - destruct (pending k (uploads w)); [|discriminate].
    destruct (imageUploaded props); [|discriminate]. intros [= <-].
    unfold unsettled, upload_then_throws, upload_catch.
    destruct (imageUploadError props); cbn;
      intros k0 Hk; apply In_settle in Hk as [Hk N];
      (destruct (Nat.eqb_spec k k0); [congruence | apply I, Hk]).
Qed.

Lemma resolved_step props sel resp errs ev w w' :
  resolved sel resp errs w -> step props ev w = Some w' -> resolved sel resp errs w'.
Proof.
  intros (Hn & Hp & Hc & He).
  destruct ev as [files|k result|p|k r|k error|dt|h|k|k r thrown]; cbn [step].
  - destruct (isUploading (state w)); [discriminate|]. intros H.
    destruct (handleFileSelected_cases props files w w' H)
      as [[code ->] | (file' & others & -> & HE & HS)].
    { exact (conj Hn (conj Hp (conj Hc He))). }
    destruct (handleFileSelected_valid props file' others w HE HS)
      as (w1 & E & Ec & _ & Eu & _ & _ & _ & _ & En & _).
    rewrite E in H. injection H as <-.
    assert (F : (sel =? next_sel w) = false) by (apply Nat.eqb_neq; lia).
    unfold resolved. rewrite Ec, Eu, En. split; [lia|].
    destruct (imageUpload props); cbn; [rewrite F|]; repeat split; assumption.
  - destruct (lookup k (reads w)); [|discriminate].
    intros [= <-]. exact (conj Hn (conj Hp (conj Hc He))).
  - intros [= <-]. exact (conj Hn (conj Hp (conj Hc He))).
  - destruct (pending k (uploads w)) eqn:Pk; [|discriminate]. intros [= <-].
    assert (N : (k =? sel) = false).
    { apply Nat.eqb_neq. intros ->. congruence. }
    unfold resolved, upload_then.
    destruct (imageUploaded props); cbn; rewrite ?N;
      (split; [exact Hn|]; split; [apply pending_settle_other, Hp|];
       split; assumption).
  - destruct (pending k (uploads w)) eqn:Pk; [|discriminate]. intros [= <-].
    assert (N : (k =? sel) = false).
    { apply Nat.eqb_neq. intros ->. congruence. }
    unfold resolved, upload_catch.
    destruct (imageUploadError props); cbn; rewrite ?N;
      (split; [exact Hn|]; split; [apply pending_settle_other, Hp|];
       split; assumption).
  - intros [= <-]. exact (conj Hn (conj Hp (conj Hc He))).
  - destruct (lookup h (timers w)) as [due|]; [|discriminate].
    destruct (due <=? now w)%N; [|discriminate].
    intros [= <-]. exact (conj Hn (conj Hp (conj Hc He))).
  - destruct (lookup k (reads w)); [|discriminate].
    intros [= <-]. exact (conj Hn (conj Hp (conj Hc He))).
  - destruct (pending k (uploads w)) eqn:Pk; [|discriminate].
    destruct (imageUploaded props); [|discriminate]. intros [= <-].
    assert (N : (k =? sel) = false).
    { apply Nat.eqb_neq. intros ->. congruence. }
    unfold resolved, upload_then_throws, upload_catch.
    destruct (imageUploadError props); cbn; rewrite ?N;
      (split; [exact Hn|]; split; [apply pending_settle_other, Hp|];
       split; assumption).
Qed.

(** X15: When the upload promise of a selection resolves with [resp],
    [progress] is cleared, [isUploading], which was true, goes back to false
    and [imageUploaded] is invoked with [resp]; the error display is not
    touched.  When [imageUploaded] returns normally, it has been invoked
    exactly once for the selection and [imageUploadError] never, whatever
    happens next.  When it throws, the [catch] chained after the [then]
    runs as well: [imageUploadError], if supplied, is invoked once, with
    what was thrown. *)
Theorem upload_resolution_forwarded (props : Props) (w : World) (sel : nat)
    (resp : jsval) :
  reachable props w ->
  pending sel (uploads w) = true ->
  imageUploaded props = true ->
  isUploading (state w) = true
  /\ (exists w2,
        step props (UploadResolve sel resp) w = Some w2
        /\ calls w2 = CallImageUploaded sel resp :: calls w
        /\ state w2 = {| isUploading := false; hasError := hasError (state w);
                         errorText := errorText (state w); progress := None |}
        /\ (forall evs w3,
              run props evs w2 = Some w3 ->
              uploaded_calls sel (calls w3) = [resp]
              /\ uploadError_calls sel (calls w3) = []))
  /\ (forall thrown,
        exists w2,
          step props (UploadResolveThrows sel resp thrown) w = Some w2
          /\ calls w2 = (if imageUploadError props
                         then [CallImageUploadError sel thrown] else [])
                        ++ CallImageUploaded sel resp :: calls w
          /\ state w2 = {| isUploading := false; hasError := hasError (state w);
                           errorText := errorText (state w); progress := None |}
          /\ (forall evs w3,
                run props evs w2 = Some w3 ->
                uploaded_calls sel (calls w3) = [resp]
                /\ uploadError_calls sel (calls w3)
                   = if imageUploadError props then [thrown] else [])).
Proof.
  intros Hr Hp He.
  assert (I : wf w /\ unsettled w).
  { apply (reachable_invariant props (fun w => wf w /\ unsettled w)); [| |exact Hr].
    - split; [apply wf_initial | intros k []].
    - intros ev w0 w1 [A B] E. split.
      + apply (wf_step props ev w0 w1 A E).
      + apply (unsettled_step props ev w0 w1 A B E). }
  destruct I as [[_ U _ P] S].
  pose proof (proj1 (pending_In sel (uploads w)) Hp) as Hin.
  pose proof (S sel Hin) as Q. pose proof (P sel Hin) as Q'.
  split; [|split].
  - destruct (one_upload_reachable props w Hr) as [[I0 _]|(k & _ & I1)];
      [rewrite I0 in Hin; contradiction | exact I1].
  - eexists. split; [cbn [step]; rewrite Hp; reflexivity|].
    unfold upload_then. rewrite He. cbn.
    repeat (split; [reflexivity|]).
    intros evs w3 Hrun.
    refine (proj2 (proj2 (run_invariant props (resolved sel resp [])
                            (resolved_step props sel resp []) evs _ w3 _ Hrun))).
    split; [exact (U sel Hin)|]. split; [apply pending_settle|]. cbn. split.
    + unfold uploaded_calls in *. cbn. rewrite Nat.eqb_refl, Q. reflexivity.
    + exact Q'.
  - intros thrown. eexists.
    split; [cbn [step]; rewrite Hp, He; reflexivity|].
    unfold upload_then_throws, upload_catch.
    destruct (imageUploadError props); cbn; repeat (split; [reflexivity|]);
      intros evs w3 Hrun.
    + refine (proj2 (proj2 (run_invariant props (resolved sel resp [thrown])
                              (resolved_step props sel resp [thrown]) evs _ w3 _ Hrun))).
      split; [exact (U sel Hin)|]. split; [apply pending_settle|]. cbn. split.
      * unfold uploaded_calls in *. cbn. rewrite Nat.eqb_refl, Q. reflexivity.
      * unfold uploadError_calls in *. cbn. rewrite Nat.eqb_refl, Q'. reflexivity.
    + refine (proj2 (proj2 (run_invariant props (resolved sel resp [])
                              (resolved_step props sel resp []) evs _ w3 _ Hrun))).
      split; [exact (U sel Hin)|]. split; [apply pending_settle|]. cbn. split.
      * unfold uploaded_calls in *. cbn. rewrite Nat.eqb_refl, Q. reflexivity.
      * exact Q'.
Qed.

Lemma upload_resolution_forwarded_witness :
  isUploading (state uploading_world) = true
  /\ exists w2,
       step jpg_png (UploadResolveThrows 0 (VString (js "https://cdn/x.png"))
                       (VString (js "TypeError"))) uploading_world
       = Some w2
       /\ calls w2 = [CallImageUploadError 0 (VString (js "TypeError"));
                      CallImageUploaded 0 (VString (js "https://cdn/x.png"));
                      CallImageUpload 0 (mkFile (js "Photo.PNG") 1000)].
Proof.
  destruct (upload_resolution_forwarded jpg_png uploading_world 0
              (VString (js "https://cdn/x.png"))
              (ex_intro _ [Change (Some [mkFile (js "Photo.PNG") 1000])] eq_refl)
              eq_refl eq_refl)
    as (B & _ & T).
  split; [exact B|].
  destruct (T (VString (js "TypeError"))) as (w2 & E & C & _).
  exists w2. split; [exact E | exact C].
Defined.

End UploadSuccess.
